(** * CRT_Base: the split-step propagation engine of ATUS2 (include/CRT_Base.h)

    A shallow embedding of the class template
    [CRT_Base<T,dim,no_int_states>] and of the properties its specification
    states about it.

    Conventions of the embedding.
    - [double] is idealised as a real number ([R]) in the engine: the
      fields, the tables, the potentials and the header; rounding, infinities
      and NaN are outside the model there.  [cos], [sin] and [sincos] of libm
      are the functions of the real-number library.
    - The [double] members of a stage descriptor are binary64 numbers
      ([PrimFloat.float]): the scheduler divides, multiplies and compares
      them and converts the quotient to [int], and rounding decides the
      integer it gets.  The time step a stage hands to the header is the real
      number its [double] holds ([double_value]).
    - [int] is [Z]; the conversion of a [double] to [int] and the division
      of two [int] are defined only where C++ defines them.
    - [fftw_complex] (a [double[2]]) is a pair (real part, imaginary part).
    - Arrays are lists; [a[i] = v] is [<[i:=v]> a], [a[i]] is [a !!! i] where
      the index is bounded by the loop and the class invariant, and an
      explicit [Undefined] outcome where the source can index past the end.
    - An OpenMP [parallel for] whose iterations touch disjoint indices is
      embedded as the sequential loop over the same indices.
    - A member function that can throw, exit or index out of range is a
      function from the world before the call to an outcome; the others are
      functions on the engine. *)

From Stdlib Require Import Reals Lra ZArith.
From Stdlib Require Floats.
From stdpp Require Import base list gmap strings pretty.

Open Scope R_scope.

(** ** Data model *)

(** [fftw_complex]: index 0 is the real part, index 1 the imaginary part. *)
Abbreviation fftw_complex := (R * R)%type.

#[global] Instance R_inhabited : Inhabited R := populate 0.

(** A [double] kept as the binary64 number it is. *)
Abbreviation double := PrimFloat.float.

#[global] Instance double_inhabited : Inhabited double := populate PrimFloat.zero.

(** [CPoint<dim>]: a point with [dim] real coordinates. *)
Abbreviation CPoint := (list R).

(** Modelled from the spec: [CPoint::scale] is missing from the sources; the
    spec's grid utilities give "component access, dot product and scaling",
    and the kinetic phase is [k . diag(alpha) . k], so [k.scale(alpha)]
    multiplies coordinate by coordinate. *)
Definition CPoint_scale (k alpha : CPoint) : CPoint :=
  zip_with Rmult k alpha.

(** Modelled from the spec: [CPoint::operator*] on two points is missing from
    the sources; it is the dot product of the spec's grid utilities. *)
Definition CPoint_dot (a b : CPoint) : R :=
  foldr Rplus 0 (zip_with Rmult a b).

(** The part of [generic_header] the engine reads and writes: the accumulated
    simulated time and the time step. *)
Record generic_header : Type := mk_header { t : R; dt : R }.

(** The static wrappers a [StepFunction] pointer of this class can hold. *)
Inductive StepFunction : Type :=
| Do_FT_Step_full_Wrapper
| Do_FT_Step_half_Wrapper
| Do_NL_Step_Wrapper
| Do_NL_Step_Wrapper_one.

#[global] Instance StepFunction_eq_dec : EqDecision StepFunction.
Proof. solve_decision. Defined.

(** The members of [CRT_Base] and of its base [CRT_shared] that the engine
    uses. *)
Record CRT_Base : Type := mk_CRT_Base {
  m_header : generic_header;
  m_no_of_pts : nat;
  m_ar : R;
  m_ar_k : R;
  m_alpha : CPoint;
  m_full_step : list fftw_complex;
  m_half_step : list fftw_complex;
  m_potenial_initialized : bool;
  m_gs : list R;
  m_fields : list (list fftw_complex);
  m_Potential : list (list R);
  m_map_stepfcts : gmap string StepFunction
}.

Definition set_header (h : generic_header) (st : CRT_Base) : CRT_Base :=
  mk_CRT_Base h (m_no_of_pts st) (m_ar st) (m_ar_k st) (m_alpha st)
    (m_full_step st) (m_half_step st) (m_potenial_initialized st) (m_gs st)
    (m_fields st) (m_Potential st) (m_map_stepfcts st).

Definition set_steps (full half : list fftw_complex) (st : CRT_Base) : CRT_Base :=
  mk_CRT_Base (m_header st) (m_no_of_pts st) (m_ar st) (m_ar_k st) (m_alpha st)
    full half (m_potenial_initialized st) (m_gs st)
    (m_fields st) (m_Potential st) (m_map_stepfcts st).

Definition set_fields (fs : list (list fftw_complex)) (st : CRT_Base) : CRT_Base :=
  mk_CRT_Base (m_header st) (m_no_of_pts st) (m_ar st) (m_ar_k st) (m_alpha st)
    (m_full_step st) (m_half_step st) (m_potenial_initialized st) (m_gs st)
    fs (m_Potential st) (m_map_stepfcts st).

Definition set_Potential (b : bool) (V : list (list R)) (st : CRT_Base) : CRT_Base :=
  mk_CRT_Base (m_header st) (m_no_of_pts st) (m_ar st) (m_ar_k st) (m_alpha st)
    (m_full_step st) (m_half_step st) b (m_gs st)
    (m_fields st) V (m_map_stepfcts st).

(** [enum freq] of the sequence descriptors. *)
Module freq.
Inductive freq : Type := none | each | last | packed.
#[global] Instance freq_eq_dec : EqDecision freq.
Proof. solve_decision. Defined.
End freq.

(** [sequence_item]: one stage descriptor of the parameter file. *)
Record sequence_item : Type := mk_sequence_item {
  seq_name : string;
  seq_content : string;
  seq_comp : Z;
  seq_duration : list double;
  seq_dt : double;
  seq_Nk : Z;
  seq_output_freq : freq.freq;
  seq_compute_pn_freq : freq.freq;
  seq_custom_freq : freq.freq
}.

(** One record of a snapshot file: the header, then the payload of one
    internal state. *)
Record frame : Type := mk_frame {
  frame_header : generic_header;
  frame_payload : list fftw_complex
}.

(** Lines written to [std::cout] and [std::cerr], kept structured. *)
Inductive message : Type :=
| FYI_found (n : nat)
| FYI_started (name : string)
| FYI_momentum_set (comp : Z)
| FYI_sequence_no (c : Z)
| FYI_duration (d : double)
| FYI_dt (d : double)
| FYI_Na (n : Z)
| FYI_Nk (n : Z)
| FYI_Na_Nk_dt (d : double)
| FYI_mismatch
| Line_t (tm : R)
| Line_N (c : nat) (n : R)
| Line_open_failed (filename : string)
| Err_size
| Err_fct_ptr
| Err_sequence_name (name : string)
| Err_potential_not_initialized.

(** The engine together with what it acts on: the files on disk, the two
    output streams, and the exception that an enclosing handler is
    handling, if any (what a [throw;] without operand rethrows). *)
Record World : Type := mk_World {
  self : CRT_Base;
  disk : gmap string (list frame);
  cout : list message;
  cerr : list message;
  handling : option string
}.

Definition set_self (st : CRT_Base) (w : World) : World :=
  mk_World st (disk w) (cout w) (cerr w) (handling w).

Definition set_disk (d : gmap string (list frame)) (w : World) : World :=
  mk_World (self w) d (cout w) (cerr w) (handling w).

Definition print (m : message) (w : World) : World :=
  mk_World (self w) (disk w) (cout w ++ [m]) (cerr w) (handling w).

Definition eprint (m : message) (w : World) : World :=
  mk_World (self w) (disk w) (cout w) (cerr w ++ [m]) (handling w).

(** ** Outcomes and the monad of the member functions *)

(** The exceptions [std::stod] throws. *)
Inductive std_exception : Type := invalid_argument | out_of_range.

(** How a call ends: it returns; it throws a [std::string]; it throws an
    exception of the standard library; it calls [exit(EXIT_FAILURE)]; the
    process is aborted ([std::terminate], a failed [assert]); or the
    behaviour is undefined (an index past the end of an array, a division by
    zero). *)
Inductive outcome (A : Type) : Type :=
| Ok (a : A) (w : World)
| Throw (msg : string) (w : World)
| Throw_std (e : std_exception) (w : World)
| Exit (w : World)
| Abort (w : World)
| Undefined.

Arguments Ok {A} a w.
Arguments Throw {A} msg w.
Arguments Throw_std {A} e w.
Arguments Exit {A} w.
Arguments Abort {A} w.
Arguments Undefined {A}.

Definition M (A : Type) : Type := World -> outcome A.

Definition ret {A : Type} (a : A) : M A := fun w => Ok a w.

Definition bind {A B : Type} (m : M A) (f : A -> M B) : M B :=
  fun w =>
    match m w with
    | Ok a w' => f a w'
    | Throw msg w' => Throw msg w'
    | Throw_std e w' => Throw_std e w'
    | Exit w' => Exit w'
    | Abort w' => Abort w'
    | Undefined => Undefined
    end.

#[global] Instance M_ret : MRet M := @ret.
#[global] Instance M_bind : MBind M := fun A B f m => bind m f.

Definition throw {A : Type} (msg : string) : M A := fun w => Throw msg w.
Definition throw_std {A : Type} (e : std_exception) : M A := fun w => Throw_std e w.
Definition exit_failure {A : Type} : M A := fun w => Exit w.
Definition undefined {A : Type} : M A := fun _ => Undefined.

(** [throw;]: rethrows the exception being handled; with none,
    [std::terminate] is called. *)
Definition rethrow {A : Type} : M A :=
  fun w => match handling w with
           | Some e => Throw e w
           | None => Abort w
           end.

(** [assert(b)] with assertions enabled. *)
Definition assert (b : bool) : M unit :=
  fun w => if b then Ok tt w else Abort w.

Definition modify (f : World -> World) : M unit := fun w => Ok tt (f w).
Definition modify_self (f : CRT_Base -> CRT_Base) : M unit :=
  fun w => Ok tt (set_self (f (self w)) w).
Definition get_self : M CRT_Base := fun w => Ok (self w) w.

(** ** Loops *)

(** [for (int i = 0; i < n; i++) s = body(i, s)]. *)
Definition for_ {S : Type} (n : nat) (body : nat -> S -> S) (s : S) : S :=
  fold_left (fun s i => body i s) (seq 0 n) s.

(** The same loop when the body can fail. *)
Fixpoint mfor_list (l : list nat) (body : nat -> M unit) : M unit :=
  match l with
  | [] => ret tt
  | i :: l' => body i;; mfor_list l' body
  end.

Definition mfor (n : nat) (body : nat -> M unit) : M unit :=
  mfor_list (seq 0 n) body.

(** A loop whose body does not read its counter, run [n] times. *)
Fixpoint mrepeat (n : nat) (body : M unit) : M unit :=
  match n with
  | O => ret tt
  | S n' => body;; mrepeat n' body
  end.

(** In-place complex multiplication of [Psi[l]] by [(c, s)], as the step
    operators write it: the real part is saved in [tmp1] before it is
    overwritten. *)
Definition rotate (psi : fftw_complex) (c s : R) : fftw_complex :=
  let tmp1 := psi.1 in
  let re := psi.1 * c - psi.2 * s in
  let im := psi.2 * c + tmp1 * s in
  (re, im).

(** ** Template arguments and external collaborators *)

(** The template arguments [dim] and [no_int_states], the interface of the
    field class [T] ([ft], [Get_x], [Get_k] of cft_base.h; [ft (-1)] is the
    forward transform and [ft 1] the inverse one), and the library functions
    the scheduler calls: [strtk::parse] with [","], [stod] (the number a
    string reads as, or the exception [std::stod] throws), the [%.3f]
    conversion of [sprintf], and whether an [ofstream] on a file name can be
    opened, for writing ([can_write]) and for appending ([can_append]). *)
Class CRT_Template : Type := {
  dim : nat;
  no_int_states : nat;
  ft : Z -> list fftw_complex -> list fftw_complex;
  Get_x : nat -> CPoint;
  Get_k : nat -> CPoint;
  strtk_parse : string -> list string;
  stod : string -> R + std_exception;
  sprintf_3f : R -> string;
  can_write : string -> bool;
  can_append : string -> bool
}.

(** What a class derived from [CRT_Base] adds: the pure virtual
    [run_custom_sequence], and the hook installed with [Set_custom_fct]
    ([None] is [nullptr], the value the constructor leaves). *)
Class CRT_Derived : Type := {
  run_custom_sequence : sequence_item -> M bool;
  m_custom_fct : option (sequence_item -> M unit)
}.

Section Engine.
Context {TT : CRT_Template}.

(** *** Init (lines 242-264) *)

Definition Init (st : CRT_Base) : CRT_Base :=
  let dt := - dt (m_header st) in
  let tables :=
    for_ (m_no_of_pts st)
      (fun i tables =>
         let k := Get_k i in
         let phi := dt * CPoint_dot (CPoint_scale k (m_alpha st)) k in
         (<[i := (cos phi, sin phi)]> tables.1,
          <[i := (cos (0.5 * phi), sin (0.5 * phi))]> tables.2))
      (m_full_step st, m_half_step st) in
  set_steps tables.1 tables.2 st.

(** *** Init_Potential and Setup_Potential (lines 266-288) *)

(** [it.resize(m_no_of_pts, 0)]. *)
Definition resize (n : nat) (V : list R) : list R :=
  take n V ++ replicate (n - length V) 0.

Definition Init_Potential (st : CRT_Base) : CRT_Base :=
  set_Potential true (resize (m_no_of_pts st) <$> m_Potential st) st.

(** The second assertion compares [comp], not [index], with [m_no_of_pts],
    as the source does; the write then indexes the vector unchecked. *)
Definition Setup_Potential (comp index : Z) (val : R) : M unit :=
  st ← get_self;
  (if m_potenial_initialized st
   then mret tt
   else modify (eprint Err_potential_not_initialized);; rethrow);;
  assert (bool_decide (-1 < comp ∧ comp < Z.of_nat no_int_states)%Z);;
  assert (bool_decide (-1 < index ∧ comp < Z.of_nat (m_no_of_pts st))%Z);;
  match m_Potential st !! Z.to_nat comp with
  | None => undefined
  | Some V =>
      if bool_decide (Z.to_nat index < length V)%nat
      then modify_self
             (set_Potential (m_potenial_initialized st)
                (<[Z.to_nat comp := <[Z.to_nat index := val]> V]> (m_Potential st)))
      else undefined
  end.

(** *** The kinetic steps (lines 326-382) *)

(** [for (c...) m_fields[c]->ft(d)]. *)
Definition ft_all (d : Z) (fields : list (list fftw_complex)) : list (list fftw_complex) :=
  for_ no_int_states (fun c fs => <[c := ft d (fs !!! c)]> fs) fields.

(** The double loop that multiplies every point of every field by the
    entry of the operator table [step] at that point. *)
Definition apply_step (N : nat) (step : list fftw_complex)
    (fields : list (list fftw_complex)) : list (list fftw_complex) :=
  for_ no_int_states
    (fun i fs =>
       let Psi := fs !!! i in
       <[i := for_ N
                (fun l Psi => <[l := rotate (Psi !!! l) (step !!! l).1 (step !!! l).2]> Psi)
                Psi]> fs)
    fields.

Definition Do_FT_Step_full (st : CRT_Base) : CRT_Base :=
  let fields := ft_all (-1) (m_fields st) in
  let fields := apply_step (m_no_of_pts st) (m_full_step st) fields in
  let fields := ft_all 1 fields in
  let st := set_fields fields st in
  set_header (mk_header (t (m_header st) + dt (m_header st)) (dt (m_header st))) st.

Definition Do_FT_Step_half (st : CRT_Base) : CRT_Base :=
  let fields := ft_all (-1) (m_fields st) in
  let fields := apply_step (m_no_of_pts st) (m_half_step st) fields in
  let fields := ft_all 1 fields in
  let st := set_fields fields st in
  set_header (mk_header (t (m_header st) + 0.5 * dt (m_header st)) (dt (m_header st))) st.

(** *** The nonlinear step (lines 386-435) *)

(** The first inner loop at the point [l]: the phase of every internal
    state.  The density is computed and tested; the branch of a positive
    density is empty in the source (its two statements are commented out). *)
Definition NL_phase (st : CRT_Base) (dt : R) (fields : list (list fftw_complex))
    (l : nat) : list R :=
  for_ no_int_states
    (fun i phi =>
       let phi_i :=
         if m_potenial_initialized st then (m_Potential st !!! i) !!! l else 0 in
       let psi := (fields !!! i) !!! l in
       let tmp_density := psi.1 * psi.1 + psi.2 * psi.2 in
       let phi_i := if Rle_dec tmp_density 0 then phi_i + 0 else phi_i in
       <[i := phi_i * dt]> phi)
    (replicate no_int_states 0).

Definition Do_NL_Step (st : CRT_Base) : CRT_Base :=
  let dt := - dt (m_header st) in
  let fields :=
    for_ (m_no_of_pts st)
      (fun l fields =>
         let phi := NL_phase st dt fields l in
         for_ no_int_states
           (fun i fs =>
              let im1 := sin (phi !!! i) in
              let re1 := cos (phi !!! i) in
              <[i := <[l := rotate ((fs !!! i) !!! l) re1 im1]> (fs !!! i)]> fs)
           fields)
      (m_fields st) in
  set_fields fields st.

(** *** The guard on the component index *)

Definition LF : string := String (Ascii.ascii_of_nat 10) EmptyString.

(** [if ( comp<0 || comp>no_int_states ) throw std::string("Error in " +
    std::string(__func__) + ": comp out of bounds\n")], followed by the
    access [m_fields[comp]], which is past the end of the [std::array] when
    [comp] is [no_int_states]. *)
Definition field_of (func : string) (comp : Z) : M (list fftw_complex) :=
  st ← get_self;
  if bool_decide (comp < 0 ∨ comp > Z.of_nat no_int_states)%Z
  then throw ("Error in " +:+ func +:+ ": comp out of bounds" +:+ LF)
  else match m_fields st !! Z.to_nat comp with
       | Some Psi => mret Psi
       | None => undefined
       end.

(** *** Setup_Momentum (lines 442-467) *)

Definition Setup_Momentum (px : CPoint) (comp : Z) : M unit :=
  Psi ← field_of "Setup_Momentum" comp;
  st ← get_self;
  let Psi :=
    for_ (m_no_of_pts st)
      (fun l Psi =>
         let x := Get_x l in
         let im := sin (CPoint_dot px x) in
         let re := cos (CPoint_dot px x) in
         let re2 := (Psi !!! l).1 in
         let im2 := (Psi !!! l).2 in
         <[l := (re2 * re - im2 * im, re2 * im + im2 * re)]> Psi)
      Psi in
  modify_self (set_fields (<[Z.to_nat comp := Psi]> (m_fields st))).

(** *** The reductions (lines 474-593) *)

(** The accumulation of [coord(l)[i] * |Psi[l]|^2] over the grid, as one
    worker does it ([nthreads] is 1, [ithread] is 0), followed by the loop
    that adds the partial sums of the workers into [res]. *)
Definition expval_sum (N : nat) (coord : nat -> CPoint) (Psi : list fftw_complex) : list R :=
  let tmp :=
    for_ N
      (fun l tmp =>
         let x := coord l in
         let den := (Psi !!! l).1 * (Psi !!! l).1 + (Psi !!! l).2 * (Psi !!! l).2 in
         for_ dim (fun i tmp => <[i := tmp !!! i + (x !!! i) * den]> tmp) tmp)
      (replicate dim 0) in
  for_ dim (fun i res => <[i := res !!! i + tmp !!! i]> res) (replicate dim 0).

(** [for (i...) retval[i] = scale*res[i]]. *)
Definition scaled (scale : R) (res : list R) : CPoint :=
  for_ dim (fun i retval => <[i := scale * (res !!! i)]> retval) (replicate dim 0).

Definition Expval_Position (comp : Z) : M CPoint :=
  Psi ← field_of "Expval_Position" comp;
  st ← get_self;
  let res := expval_sum (m_no_of_pts st) Get_x Psi in
  mret (scaled (m_ar st) res).

Definition Expval_Momentum (comp : Z) : M CPoint :=
  Psi ← field_of "Expval_Momentum" comp;
  let Psi := ft (-1) Psi in
  modify_self (fun st => set_fields (<[Z.to_nat comp := Psi]> (m_fields st)) st);;
  st ← get_self;
  let res := expval_sum (m_no_of_pts st) Get_k Psi in
  let Psi := ft 1 Psi in
  modify_self (fun st => set_fields (<[Z.to_nat comp := Psi]> (m_fields st)) st);;
  mret (scaled (m_ar_k st) res).

Definition Get_Particle_Number (comp : Z) : M R :=
  Psi ← field_of "Get_Particle_Number" comp;
  st ← get_self;
  let retval :=
    for_ (m_no_of_pts st)
      (fun l retval =>
         retval + ((Psi !!! l).1 * (Psi !!! l).1 + (Psi !!! l).2 * (Psi !!! l).2))
      0 in
  mret (m_ar st * retval).

(** *** Snapshot files (lines 600-635) *)

(** An [ofstream] opened without [app] replaces the content of the file.
    The source does not test the stream: on a file that cannot be opened the
    two writes do nothing, and the function returns as it does otherwise. *)
Definition Save_Phi (filename : string) (comp : Z) : M unit :=
  Psi ← field_of "Save_Phi" comp;
  st ← get_self;
  if can_write filename
  then modify (fun w =>
         set_disk (<[filename := [mk_frame (m_header st) Psi]]> (disk w)) w)
  else mret tt.

Definition Append_Phi (filename : string) (comp : Z) : M unit :=
  Psi ← field_of "Append_Phi" comp;
  st ← get_self;
  if can_append filename
  then modify (fun w =>
         set_disk (<[filename := default [] (disk w !! filename)
                                   ++ [mk_frame (m_header st) Psi]]> (disk w)) w)
  else modify (print (Line_open_failed filename));; exit_failure.

End Engine.

(** ** The sequence scheduler (lines 678-835) *)

(** Modelled from the spec: [Get_t] is a member of the base class
    [CRT_shared], missing from the sources; it reads the "current simulated
    time" of the header. *)
Definition Get_t (st : CRT_Base) : R := t (m_header st).

(** Modelled from the spec: [Get_dt] is a member of the base class
    [CRT_shared], missing from the sources; it reads the "time-step magnitude"
    of the header. *)
Definition Get_dt (st : CRT_Base) : R := dt (m_header st).

(** Modelled from the spec: [Set_dt] is a member of the base class
    [CRT_shared], missing from the sources; "the scheduler updates the
    engine's time-step magnitude per stage" and there is no "automatic rebuild
    of the operator table at that point". *)
Definition Set_dt (d : R) (st : CRT_Base) : CRT_Base :=
  set_header (mk_header (t (m_header st)) d) st.

(** The entries the constructor puts into [m_map_stepfcts] (lines 151-155). *)
Definition ctor_map_stepfcts : gmap string StepFunction :=
  <["freeprop_lin" := Do_NL_Step_Wrapper_one]>
    (<["freeprop" := Do_NL_Step_Wrapper]>
       (<["full_step" := Do_FT_Step_full_Wrapper]>
          (<["half_step" := Do_FT_Step_half_Wrapper]> ∅))).

(** The range of a 32-bit [int]. *)
Definition INT_MIN : Z := (- 2 ^ 31)%Z.
Definition INT_MAX : Z := (2 ^ 31 - 1)%Z.

(** The real number a finite [double] holds: [(-1)^s * m * 2^e] for the sign,
    the mantissa and the exponent of its binary64 representation.  A zero
    holds 0.  An infinity and a NaN hold no number: they are outside the
    idealisation of the header, and are given 0 here. *)
Definition double_value (x : double) : R :=
  match FloatOps.Prim2SF x with
  | SpecFloat.S754_finite s m e =>
      let n := if s then Z.neg m else Z.pos m in
      if (0 <=? e)%Z then IZR (n * 2 ^ e) else IZR n / IZR (2 ^ (- e))
  | _ => 0
  end.

(** [int(x)] for a [double] x: the fractional part is discarded (truncation
    towards zero); the behaviour is undefined ([None]) when the truncated
    value is not in the range of [int], and for an infinity or a NaN. *)
Definition double_to_int (x : double) : option Z :=
  match FloatOps.Prim2SF x with
  | SpecFloat.S754_zero _ => Some 0%Z
  | SpecFloat.S754_finite s m e =>
      let a := if (0 <=? e)%Z then (Z.pos m * 2 ^ e)%Z else (Z.pos m / 2 ^ (- e))%Z in
      let z := if s then (- a)%Z else a in
      if ((INT_MIN <=? z) && (z <=? INT_MAX))%Z then Some z else None
  | _ => None
  end.

(** [double(n)] for an [int] n: every [int] is a [double]. *)
Definition int_to_double (n : Z) : double :=
  if (n <? 0)%Z
  then PrimFloat.opp (PrimFloat.of_uint63 (Uint63.of_Z (- n)))
  else PrimFloat.of_uint63 (Uint63.of_Z n).

(** Lines 731-734. *)
Definition max_duration_of (seq : sequence_item) : double :=
  for_ (length (seq_duration seq))
    (fun i max_duration =>
       if PrimFloat.ltb max_duration (seq_duration seq !!! i)
       then seq_duration seq !!! i
       else max_duration)
    PrimFloat.zero.

(** [a / b] on [int]: the quotient truncated towards zero; undefined for a
    zero divisor and for the quotient of [INT_MIN] by -1, which is not an
    [int]. *)
Definition int_div (a b : Z) : option Z :=
  if (b =? 0)%Z then None
  else if ((a =? INT_MIN) && (b =? -1))%Z then None
  else Some (a ÷ b)%Z.

(** Lines 736-738: [subN = int(max_duration / seq.dt)] and
    [Na = subN / seq.Nk]; the division of the two [double] is the binary64
    division. *)
Definition Na_of (seq : sequence_item) : option Z :=
  subN ← double_to_int (PrimFloat.div (max_duration_of seq) (seq_dt seq));
  int_div subN (seq_Nk seq).

Section Scheduler.
Context {TT : CRT_Template} {DD : CRT_Derived}.

(** The call of [this] and [seq] through the function pointer [f]. *)
Definition call (f : StepFunction) (seq : sequence_item) : M unit :=
  match f with
  | Do_FT_Step_full_Wrapper => modify_self Do_FT_Step_full
  | Do_FT_Step_half_Wrapper => modify_self Do_FT_Step_half
  | Do_NL_Step_Wrapper => modify_self Do_NL_Step
  | Do_NL_Step_Wrapper_one => mret tt
  end.

(** [sprintf( filename, "Seq_%d_%d.bin", seq_counter, k+1 )]. *)
Definition Seq_filename (seq_counter : Z) (k : nat) : string :=
  "Seq_" +:+ pretty seq_counter +:+ "_" +:+ pretty (Z.of_nat k + 1)%Z +:+ ".bin".

(** [sprintf( filename, "%.3f_%d.bin", this->Get_t(), k+1 )]. *)
Definition time_filename (tm : R) (k : nat) : string :=
  sprintf_3f tm +:+ "_" +:+ pretty (Z.of_nat k + 1)%Z +:+ ".bin".

Definition std_remove (filename : string) : M unit :=
  modify (fun w => set_disk (delete filename (disk w)) w).

(** Lines 772-779: the operators of one outer iteration. *)
Definition splitting_step (half_step_fct full_step_fct step_fct : StepFunction)
    (seq : sequence_item) (Nk : Z) : M unit :=
  call half_step_fct seq;;
  mrepeat (Z.to_nat (Nk - 1))
    (call step_fct seq;;
     call full_step_fct seq);;
  call step_fct seq;;
  call half_step_fct seq.

Definition Save_all : M unit :=
  mfor no_int_states
    (fun k => st ← get_self; Save_Phi (time_filename (Get_t st) k) (Z.of_nat k)).

Definition report_particle_numbers : M unit :=
  mfor no_int_states
    (fun c => n ← Get_Particle_Number (Z.of_nat c); modify (print (Line_N c n))).

Definition call_custom_fct (seq : sequence_item) : M unit :=
  match m_custom_fct with
  | Some fct => fct seq
  | None => mret tt
  end.

Definition when (b : bool) (m : M unit) : M unit := if b then m else mret tt.

(** Lines 781-810: what follows the operators in one outer iteration. *)
Definition after_step (seq : sequence_item) (seq_counter : Z) : M unit :=
  st ← get_self;
  modify (print (Line_t (t (m_header st))));;
  when (bool_decide (seq_output_freq seq = freq.each)) Save_all;;
  when (bool_decide (seq_output_freq seq = freq.packed))
    (mfor no_int_states
       (fun k => Append_Phi (Seq_filename seq_counter k) (Z.of_nat k)));;
  when (bool_decide (seq_compute_pn_freq seq = freq.each)) report_particle_numbers;;
  when (bool_decide (seq_custom_freq seq = freq.each)) (call_custom_fct seq).

(** Lines 813-831: what follows the loop of a stage. *)
Definition after_loop (seq : sequence_item) : M unit :=
  when (bool_decide (seq_output_freq seq = freq.last)) Save_all;;
  when (bool_decide (seq_compute_pn_freq seq = freq.last)) report_particle_numbers;;
  when (bool_decide (seq_custom_freq seq = freq.last)) (call_custom_fct seq).

(** Lines 721-722: [for (i...) P[i] = stod(vec[i])], over the indices
    [idx]; the first string that [stod] does not take ends the loop with its
    exception. *)
Fixpoint read_momentum (idx : list nat) (vec : list string) (P : CPoint)
    : CPoint + std_exception :=
  match idx with
  | [] => inl P
  | i :: rest =>
      match stod (vec !!! i) with
      | inl x => read_momentum rest vec (<[i := x]> P)
      | inr e => inr e
      end
  end.

(** The momentum vector a [set_momentum] stage builds from the strings of
    its content. *)
Definition momentum_of (vec : list string) : CPoint + std_exception :=
  read_momentum (seq 0 dim) vec (replicate dim 0).

(** Lines 712-729: the stage [set_momentum]. *)
Definition run_set_momentum (seq : sequence_item) : M unit :=
  let vec := strtk_parse (seq_content seq) in
  assert (bool_decide (dim < length vec)%nat);;
  assert (bool_decide (seq_comp seq <= Z.of_nat dim)%Z);;
  match momentum_of vec with
  | inr e => throw_std e
  | inl P =>
      Setup_Momentum P (seq_comp seq);;
      modify (print (FYI_started (seq_name seq)));;
      modify (print (FYI_momentum_set (seq_comp seq)))
  end.

(** Lines 764-811: the deletion of the packed files of the stage, and its
    loop. *)
Definition delete_packed (seq_counter : Z) : M unit :=
  mfor no_int_states (fun k => std_remove (Seq_filename seq_counter k)).

Definition propagate (half_step_fct full_step_fct step_fct : StepFunction)
    (seq : sequence_item) (Na Nk seq_counter : Z) : M unit :=
  mrepeat (Z.to_nat Na)
    (splitting_step half_step_fct full_step_fct step_fct seq Nk;;
     after_step seq seq_counter).

(** Lines 770-833: the loop of a stage, what follows it, and the increment
    of [seq_counter]. *)
Definition run_stage (half_step_fct full_step_fct step_fct : StepFunction)
    (seq : sequence_item) (Na Nk seq_counter : Z) : M Z :=
  propagate half_step_fct full_step_fct step_fct seq Na Nk seq_counter;;
  after_loop seq;;
  mret (seq_counter + 1)%Z.

(** Lines 710-833: the body of the loop over the sequences; the result is
    the value of [seq_counter] after it. *)
Definition run_sequence_item (half_step_fct full_step_fct : StepFunction)
    (seq : sequence_item) (seq_counter : Z) : M Z :=
  custom ← run_custom_sequence seq;
  if custom : bool then mret seq_counter
  else if bool_decide (seq_name seq = "set_momentum")
  then run_set_momentum seq;; mret seq_counter
  else
    let max_duration := max_duration_of seq in
    match Na_of seq with
    | None => undefined
    | Some Na =>
        let Nk := seq_Nk seq in
        modify (print (FYI_started (seq_name seq)));;
        modify (print (FYI_sequence_no seq_counter));;
        modify (print (FYI_duration max_duration));;
        modify (print (FYI_dt (seq_dt seq)));;
        modify (print (FYI_Na Na));;
        modify (print (FYI_Nk Nk));;
        let Na_Nk_dt := PrimFloat.mul (int_to_double (Na * Nk)) (seq_dt seq) in
        modify (print (FYI_Na_Nk_dt Na_Nk_dt));;
        (if PrimFloat.eqb Na_Nk_dt max_duration
         then mret tt
         else modify (print FYI_mismatch));;
        st ← get_self;
        (if Req_dec_T (Get_dt st) (double_value (seq_dt seq))
         then mret tt
         else modify_self (Set_dt (double_value (seq_dt seq))));;
        st ← get_self;
        match m_map_stepfcts st !! seq_name seq with
        | None => modify (eprint (Err_sequence_name (seq_name seq)));; exit_failure
        | Some step_fct =>
            delete_packed seq_counter;;
            run_stage half_step_fct full_step_fct step_fct seq Na Nk seq_counter
        end
    end.

Fixpoint run_sequence_loop (half_step_fct full_step_fct : StepFunction)
    (m_sequence : list sequence_item) (seq_counter : Z) : M unit :=
  match m_sequence with
  | [] => mret tt
  | seq :: rest =>
      seq_counter ← run_sequence_item half_step_fct full_step_fct seq seq_counter;
      run_sequence_loop half_step_fct full_step_fct rest seq_counter
  end.

(** [run_sequence], given [m_params->m_sequence]. *)
Definition run_sequence (m_sequence : list sequence_item) : M unit :=
  st ← get_self;
  (if bool_decide (length (m_fields st) = no_int_states)
   then mret tt
   else modify (eprint Err_size);; exit_failure);;
  modify (print (FYI_found (length m_sequence)));;
  match m_map_stepfcts st !! "half_step", m_map_stepfcts st !! "full_step" with
  | Some half_step_fct, Some full_step_fct =>
      run_sequence_loop half_step_fct full_step_fct m_sequence 1
  | _, _ => modify (eprint Err_fct_ptr);; exit_failure
  end.

End Scheduler.

(** ** Packed files *)

Section Packed.
Context {TT : CRT_Template} {DD : CRT_Derived}.

(** The frames in the packed file of the stage [seq_counter] for the
    internal state [k]; a file that does not exist has none. *)
Definition packed_frames (w : World) (seq_counter : Z) (k : nat) : list frame :=
  default [] (disk w !! Seq_filename seq_counter k).



End Packed.

(** ** The operators of an outer iteration as a list *)

Section Schedule.
Context {TT : CRT_Template}.

(** What the wrapper behind a [StepFunction] does to the engine. *)
Definition step_of (f : StepFunction) : CRT_Base -> CRT_Base :=
  match f with
  | Do_FT_Step_full_Wrapper => Do_FT_Step_full
  | Do_FT_Step_half_Wrapper => Do_FT_Step_half
  | Do_NL_Step_Wrapper => Do_NL_Step
  | Do_NL_Step_Wrapper_one => fun st => st
  end.

(** The half step, then the pair (operator of the stage, full step)
    [Nk-1] times, then the operator of the stage, then the half step. *)
Definition splitting_schedule (half_step_fct full_step_fct step_fct : StepFunction)
    (Nk : Z) : list StepFunction :=
  [half_step_fct]
  ++ mjoin (replicate (Z.to_nat (Nk - 1)) [step_fct; full_step_fct])
  ++ [step_fct; half_step_fct].

(** The calls of a list of step functions, one after the other. *)
Fixpoint call_all (fs : list StepFunction) (seq : sequence_item) : M unit :=
  match fs with
  | [] => mret tt
  | f :: fs' => call f seq;; call_all fs' seq
  end.

End Schedule.

(** ** The quantities the specification names *)

(** The quadratic form [k . diag(alpha) . k] of the kinetic phase, written as
    the sum over the axes of [k_j * alpha_j * k_j]. *)
Fixpoint kinetic_form (alpha k : CPoint) : R :=
  match alpha, k with
  | a :: alpha', kj :: k' => kj * a * kj + kinetic_form alpha' k'
  | _, _ => 0
  end.

(** The value of the internal state [i] at the grid point [l]. *)
Definition point (fields : list (list fftw_complex)) (i l : nat) : option fftw_complex :=
  fields !! i ≫= (.!! l).

(** The static potential the nonlinear step reads for the internal state
    [i] at the point [l]: zero until [Init_Potential] has run. *)
Definition potential_at (st : CRT_Base) (i l : nat) : R :=
  if m_potenial_initialized st then (m_Potential st !!! i) !!! l else 0.

(** One iteration of the loop of [Do_NL_Step] over the points, seen from
    the field [i]. *)
Definition NL_at (st : CRT_Base) (i l : nat) (Psi : list fftw_complex) : list fftw_complex :=
  <[l := rotate (Psi !!! l)
          (cos (potential_at st i l * - dt (m_header st)))
          (sin (potential_at st i l * - dt (m_header st)))]> Psi.

(** The largest of a list of reals that is not below zero: zero when the
    list is empty or none of its members is positive. *)
Definition max_of (durations : list R) : R := foldr Rmax 0 durations.

(** A real number without its fractional part (truncation towards zero). *)
Definition truncate (x : R) : Z :=
  if Rle_dec 0 x then Int_part x else (- Int_part (- x))%Z.

(** [m] is a largest duration of the list [durations], taken from zero, in
    the order of [double]: it is zero or one of the durations, it is not
    below zero, and no duration is above it. *)
Definition is_max_duration (durations : list double) (m : double) : Prop :=
  (m = PrimFloat.zero ∨ m ∈ durations) ∧
  PrimFloat.ltb m PrimFloat.zero = false ∧
  Forall (fun d => PrimFloat.ltb m d = false) durations.

(** The number of outer iterations as the specification words it:
    [floor(max(duration-per-component) / dt)], on the numbers the durations
    and the time step hold. *)
Definition floor_of_duration_over_dt (seq : sequence_item) : Z :=
  Int_part (max_of (double_value <$> seq_duration seq) / double_value (seq_dt seq)).

(** [double(Na*Nk)*seq.dt], in binary64. *)
Definition Na_Nk_dt (seq : sequence_item) (Na : Z) : double :=
  PrimFloat.mul (int_to_double (Na * seq_Nk seq)) (seq_dt seq).

(** The lines a stage writes to [std::cout] before its loop. *)
Definition stage_banner (seq : sequence_item) (seq_counter Na : Z) : list message :=
  [FYI_started (seq_name seq);
   FYI_sequence_no seq_counter;
   FYI_duration (max_duration_of seq);
   FYI_dt (seq_dt seq);
   FYI_Na Na;
   FYI_Nk (seq_Nk seq);
   FYI_Na_Nk_dt (Na_Nk_dt seq Na)].

(** The line a stage adds when [double(Na*Nk)*seq.dt != max_duration]. *)
Definition mismatch_line (seq : sequence_item) (Na : Z) : list message :=
  if PrimFloat.eqb (Na_Nk_dt seq Na) (max_duration_of seq)
  then [] else [FYI_mismatch].

(** The world in which a stage looks up its operator, given the world [w]
    that [run_custom_sequence] left: the banner and the line of the mismatch
    are on [std::cout] and the time step of the engine is that of the
    stage. *)
Definition stage_world (seq : sequence_item) (seq_counter Na : Z) (w : World) : World :=
  mk_World (Set_dt (double_value (seq_dt seq)) (self w)) (disk w)
    (cout w ++ stage_banner seq seq_counter Na ++ mismatch_line seq Na)
    (cerr w) (handling w).

(** ** Frames *)

(** Everything of the engine but the fields and the accumulated time. *)
Definition same_but_fields_and_time (st st' : CRT_Base) : Prop :=
  dt (m_header st') = dt (m_header st) /\
  m_no_of_pts st' = m_no_of_pts st /\
  m_ar st' = m_ar st /\
  m_ar_k st' = m_ar_k st /\
  m_alpha st' = m_alpha st /\
  m_full_step st' = m_full_step st /\
  m_half_step st' = m_half_step st /\
  m_potenial_initialized st' = m_potenial_initialized st /\
  m_gs st' = m_gs st /\
  m_Potential st' = m_Potential st /\
  m_map_stepfcts st' = m_map_stepfcts st.

(** ** A small configuration

    Two internal states on a one-dimensional grid of two points, used to
    run the definitions on concrete values. *)
Module Demo.

(** A transform pair with the round-trip contract of the specification:
    the forward direction doubles every value, the inverse halves it. *)
Definition scaling_ft (d : Z) (Psi : list fftw_complex) : list fftw_complex :=
  (fun z : fftw_complex =>
     if decide (d = 1%Z) then (z.1 / 2, z.2 / 2) else (z.1 * 2, z.2 * 2)) <$> Psi.

#[global] Instance template : CRT_Template := {|
  dim := 1;
  no_int_states := 2;
  ft := scaling_ft;
  Get_x := fun l => [IZR (Z.of_nat l)];
  Get_k := fun l => [IZR (Z.of_nat l)];
  strtk_parse := fun _ => [];
  stod := fun _ => inl 0;
  sprintf_3f := fun _ => "0.000";
  can_write := fun _ => true;
  can_append := fun _ => true
|}.

#[global] Instance derived : CRT_Derived := {|
  run_custom_sequence := fun _ => mret false;
  m_custom_fct := None
|}.

Definition engine : CRT_Base := {|
  m_header := mk_header 0 1;
  m_no_of_pts := 2;
  m_ar := 1;
  m_ar_k := 1;
  m_alpha := [1];
  m_full_step := [(1, 0); (1, 0)];
  m_half_step := [(1, 0); (1, 0)];
  m_potenial_initialized := false;
  m_gs := [0; 0; 0; 0];
  m_fields := [[(1, 0); (0, 1)]; [(0, 0); (1, 1)]];
  m_Potential := [[]; []];
  m_map_stepfcts := ctor_map_stepfcts
|}.

(** The same engine once [Init_Potential] and [Setup_Potential] have given
    the first internal state the potential [PI] at the first point. *)
Definition engine_V : CRT_Base :=
  set_Potential true [[PI; 0]; [0; 0]] engine.

Definition world : World := {|
  self := engine;
  disk := ∅;
  cout := [];
  cerr := [];
  handling := None
|}.

Definition world_V : World := set_self engine_V world.

(** A stage of duration 10 with time step 1 and two sub-steps per outer
    iteration. *)
Definition stage (name : string) (Nk : Z) : sequence_item := {|
  seq_name := name;
  seq_content := EmptyString;
  seq_comp := 0;
  seq_duration := [int_to_double 10];
  seq_dt := int_to_double 1;
  seq_Nk := Nk;
  seq_output_freq := freq.packed;
  seq_compute_pn_freq := freq.none;
  seq_custom_freq := freq.none
|}.

End Demo.

(** ** Densities and sums *)

(** The squared modulus of a field value. *)
Definition norm2 (z : fftw_complex) : R := z.1 * z.1 + z.2 * z.2.

(** The complex product [(a+bi)(c+di) = (ac-bd) + (ad+bc)i]. *)
Definition cmul (a b : fftw_complex) : fftw_complex :=
  (a.1 * b.1 - a.2 * b.2, a.1 * b.2 + a.2 * b.1).

(** The sum of a list of reals. *)
Definition Rsum (l : list R) : R := foldr Rplus 0 l.

(** The loop of the kinetic steps over the points of one field: every value
    is multiplied by the entry of the table [step] at its point. *)
Definition multiply_by (N : nat) (step : list fftw_complex) (Psi : list fftw_complex)
    : list fftw_complex :=
  for_ N
    (fun l Psi => <[l := rotate (Psi !!! l) (step !!! l).1 (step !!! l).2]> Psi)
    Psi.

(** The loop of [Setup_Momentum] over the points of one field. *)
Definition kick `{TT : CRT_Template} (px : CPoint) (N : nat) (Psi : list fftw_complex)
    : list fftw_complex :=
  for_ N
    (fun l Psi =>
       let x := Get_x l in
       let im := sin (CPoint_dot px x) in
       let re := cos (CPoint_dot px x) in
       let re2 := (Psi !!! l).1 in
       let im2 := (Psi !!! l).2 in
       <[l := (re2 * re - im2 * im, re2 * im + im2 * re)]> Psi)
    Psi.

(** ** Loading the initial wavefunctions (lines 196-230) *)

(** [ParameterHandler::Get_simulation]: the value the parameter file gives
    under a key of its simulation section. *)
Class ParameterHandler : Type := {
  Get_simulation : string -> string
}.

(** [in.seekg(sizeof(generic_header)); in.read(buf, sizeof(fftw_complex)*N)]
    on a file of records: the header of the first record is skipped and up to
    [N] values of its payload overwrite the start of the buffer.  A payload
    of at least [N] values fills [N] entries; a shorter one that ends the file
    fills as many entries as it has; a file without any record leaves the
    buffer as it is.  Reading more values than the buffer has entries is
    undefined, and a short payload followed by another record would have the
    bytes of a header read as values, which the records do not represent:
    both give [None]. *)
Definition read_payload (N : nat) (file : list frame) (buf : list fftw_complex)
    : option (list fftw_complex) :=
  match file with
  | [] => Some buf
  | fr :: rest =>
      let p := frame_payload fr in
      if decide (N <= length p)%nat
      then if decide (N <= length buf)%nat
           then Some (take N p ++ drop N buf) else None
      else match rest with
           | [] => if decide (length p <= length buf)%nat
                   then Some (p ++ drop (length p) buf) else None
           | _ :: _ => None
           end
  end.

Section Loading.
Context {TT : CRT_Template} {PH : ParameterHandler}.

(** The body shared by "File 1" and the loop "File 2,...": open, read into
    [m_fields[i]], or throw when the file cannot be opened. *)
Definition load_file (filename : string) (i : nat) : M unit :=
  fun w =>
    match disk w !! filename with
    | None => Throw ("Could not open file " +:+ filename +:+ LF) w
    | Some file =>
        match m_fields (self w) !! i with
        | None => Undefined
        | Some buf =>
            match read_payload (m_no_of_pts (self w)) file buf with
            | None => Undefined
            | Some Psi =>
                Ok tt (set_self (set_fields (<[i := Psi]> (m_fields (self w))) (self w)) w)
            end
        end
    end.

(** The key of the file of the internal state [i]: [FILENAME] for the first,
    ["FILENAME_" + to_string(i+1)] for the others. *)
Definition FILENAME_key (i : nat) : string :=
  match i with
  | O => "FILENAME"
  | S _ => "FILENAME_" +:+ pretty (Z.of_nat i + 1)%Z
  end.

Definition LoadFiles : M unit :=
  load_file (Get_simulation "FILENAME") 0;;
  mfor_list (seq 1 (no_int_states - 1))
    (fun i => load_file (Get_simulation ("FILENAME_" +:+ pretty (Z.of_nat i + 1)%Z)) i).

End Loading.

(** ** A small configuration with files *)
Module Demo_files.

(** Every key of the parameter file names the file of the same name. *)
#[global] Instance params : ParameterHandler := {|
  Get_simulation := fun key => key
|}.

Definition psi_1 : frame := mk_frame (mk_header 0 1) [(3, 0); (0, 4)].
Definition psi_2 : frame := mk_frame (mk_header 0 1) [(1, 2); (5, 6)].

Definition file_of (i : nat) : frame :=
  match i with O => psi_1 | S _ => psi_2 end.

(** [Demo.world] with the two files of initial wavefunctions on disk. *)
Definition world : World :=
  set_disk (<["FILENAME_2" := [psi_2]]> (<["FILENAME" := [psi_1]]> ∅)) Demo.world.

End Demo_files.

(** ** The engine along a stage *)

Section Stage_engine.
Context {TT : CRT_Template}.

(** What the operators of one outer iteration make of the engine. *)
Definition outer_iteration (half_step_fct full_step_fct step_fct : StepFunction)
    (Nk : Z) (st : CRT_Base) : CRT_Base :=
  foldl (fun st g => step_of g st) st
    (splitting_schedule half_step_fct full_step_fct step_fct Nk).

End Stage_engine.

(** ** The invariant of the arrays *)

Section Well_formed.
Context {TT : CRT_Template}.

(** [m_fields] and [m_Potential] are arrays of [no_int_states] entries;
    every field and both operator tables have [m_no_of_pts] entries
    ([Allocate]); and once [Init_Potential] has run so has every potential. *)
Record well_formed (st : CRT_Base) : Prop := mk_well_formed {
  wf_fields : length (m_fields st) = no_int_states;
  wf_points : Forall (fun Psi => length Psi = m_no_of_pts st) (m_fields st);
  wf_full_step : length (m_full_step st) = m_no_of_pts st;
  wf_half_step : length (m_half_step st) = m_no_of_pts st;
  wf_Potential : length (m_Potential st) = no_int_states;
  wf_potentials :
    m_potenial_initialized st = true ->
    Forall (fun V => length V = m_no_of_pts st) (m_Potential st)
}.

End Well_formed.

(** ** Small configurations for the stages *)
Module Demo_stages.

(** [Demo.engine] with nothing registered in [m_map_stepfcts]. *)
Definition engine_unregistered : CRT_Base :=
  mk_CRT_Base (m_header Demo.engine) (m_no_of_pts Demo.engine) (m_ar Demo.engine)
    (m_ar_k Demo.engine) (m_alpha Demo.engine) (m_full_step Demo.engine)
    (m_half_step Demo.engine) (m_potenial_initialized Demo.engine)
    (m_gs Demo.engine) (m_fields Demo.engine) (m_Potential Demo.engine) ∅.

Definition world_unregistered : World := set_self engine_unregistered Demo.world.

(** A derived class that takes the sequences named [my_stage]. *)
Definition derived_custom : CRT_Derived := {|
  run_custom_sequence := fun seq => mret (bool_decide (seq_name seq = "my_stage"));
  m_custom_fct := None
|}.

(** The template of [Demo] with a parser that splits the content of a stage
    into two strings, both read as the number 1. *)
Definition template_parsing : CRT_Template := {|
  dim := 1;
  no_int_states := 2;
  ft := Demo.scaling_ft;
  Get_x := fun l => [IZR (Z.of_nat l)];
  Get_k := fun l => [IZR (Z.of_nat l)];
  strtk_parse := fun _ => ["1"; "1"];
  stod := fun _ => inl 1;
  sprintf_3f := fun _ => "0.000";
  can_write := fun _ => true;
  can_append := fun _ => true
|}.

(** The template of [Demo] with a parser that gives two strings [stod]
    reads no number from. *)
Definition template_not_a_number : CRT_Template := {|
  dim := 1;
  no_int_states := 2;
  ft := Demo.scaling_ft;
  Get_x := fun l => [IZR (Z.of_nat l)];
  Get_k := fun l => [IZR (Z.of_nat l)];
  strtk_parse := fun _ => ["abc"; "def"];
  stod := fun _ => inr invalid_argument;
  sprintf_3f := fun _ => "0.000";
  can_write := fun _ => true;
  can_append := fun _ => true
|}.

(** The template of [Demo] on a disk where no file opens for writing or for
    appending. *)
Definition template_read_only : CRT_Template := {|
  dim := 1;
  no_int_states := 2;
  ft := Demo.scaling_ft;
  Get_x := fun l => [IZR (Z.of_nat l)];
  Get_k := fun l => [IZR (Z.of_nat l)];
  strtk_parse := fun _ => [];
  stod := fun _ => inl 0;
  sprintf_3f := fun _ => "0.000";
  can_write := fun _ => false;
  can_append := fun _ => false
|}.

(** The [double] nearest to 0.06, to 0.003 and to 0.001: the quotients of
    two integers, which the binary64 division rounds to nearest. *)
Definition d_0_06 : double := PrimFloat.div (int_to_double 6) (int_to_double 100).
Definition d_0_003 : double := PrimFloat.div (int_to_double 3) (int_to_double 1000).
Definition d_0_001 : double := PrimFloat.div (int_to_double 1) (int_to_double 1000).

(** A [freeprop] stage with one duration and no output. *)
Definition stage_of (duration dt : double) (Nk : Z) : sequence_item := {|
  seq_name := "freeprop";
  seq_content := EmptyString;
  seq_comp := 0;
  seq_duration := [duration];
  seq_dt := dt;
  seq_Nk := Nk;
  seq_output_freq := freq.none;
  seq_compute_pn_freq := freq.none;
  seq_custom_freq := freq.none
|}.

(** A [set_momentum] stage whose content is not a list of numbers. *)
Definition bad_kick_stage : sequence_item := {|
  seq_name := "set_momentum";
  seq_content := "abc,def";
  seq_comp := 0;
  seq_duration := [];
  seq_dt := int_to_double 1;
  seq_Nk := 1;
  seq_output_freq := freq.none;
  seq_compute_pn_freq := freq.none;
  seq_custom_freq := freq.none
|}.

Definition kick_stage : sequence_item := {|
  seq_name := "set_momentum";
  seq_content := "1,1";
  seq_comp := 0;
  seq_duration := [];
  seq_dt := int_to_double 1;
  seq_Nk := 1;
  seq_output_freq := freq.none;
  seq_compute_pn_freq := freq.none;
  seq_custom_freq := freq.none
|}.

End Demo_stages.

(** * Properties *)

(** Runs the monadic operations of a goal. *)
Ltac mrun :=
  unfold mbind, M_bind, bind, mret, M_ret, ret, get_self, modify_self, modify,
    throw, undefined, exit_failure, rethrow, assert; simpl.


Section Kinetic_steps.
Context {TT : CRT_Template}.

(** C7: [Do_FT_Step_full] adds [dt] to the accumulated time of the header
    and [Do_FT_Step_half] adds [dt/2]; both leave the operator tables, the
    potentials and their flag, the time step and every other member but the
    fields unchanged. *)
Theorem Do_FT_Step_time_and_frame (st : CRT_Base) :
  t (m_header (Do_FT_Step_full st)) = t (m_header st) + dt (m_header st) /\
  t (m_header (Do_FT_Step_half st)) = t (m_header st) + dt (m_header st) / 2 /\
  same_but_fields_and_time st (Do_FT_Step_full st) /\
  same_but_fields_and_time st (Do_FT_Step_half st).
Proof.
  unfold same_but_fields_and_time, Do_FT_Step_full, Do_FT_Step_half; simpl.
  repeat split; lra.
Qed.

End Kinetic_steps.

(** ** Loops over arrays *)

Section Loops.

Lemma for_S {S : Type} (n : nat) (body : nat -> S -> S) (s : S) :
  for_ (Datatypes.S n) body s = body n (for_ n body s).
Proof.
  unfold for_. rewrite seq_S, fold_left_app. reflexivity.
Qed.

Lemma for_0 {S : Type} (body : nat -> S -> S) (s : S) : for_ 0 body s = s.
Proof. reflexivity. Qed.

(** A loop that writes two arrays side by side is the pair of the two
    loops. *)
Lemma for_pair {A B : Type} (F : nat -> A -> A) (G : nat -> B -> B) n a b :
  for_ n (fun i p => (F i p.1, G i p.2)) (a, b) = (for_ n F a, for_ n G b).
Proof.
  induction n as [|n IH]; [reflexivity|].
  rewrite !for_S, IH. reflexivity.
Qed.

Lemma for_insert_length {A : Type} `{Inhabited A} (g : nat -> A -> A) n (a : list A) :
  length (for_ n (fun l a => <[l := g l (a !!! l)]> a) a) = length a.
Proof.
  induction n as [|n IH]; [reflexivity|].
  rewrite for_S, length_insert. exact IH.
Qed.

(** A loop whose iteration [l] rewrites the entry [l] from its own value
    rewrites every entry below the bound once and no other. *)
Lemma for_insert_lookup {A : Type} `{Inhabited A} (g : nat -> A -> A) n (a : list A) i :
  for_ n (fun l a => <[l := g l (a !!! l)]> a) a !! i =
  if decide (i < n)%nat then g i <$> a !! i else a !! i.
Proof.
  induction n as [|n IH].
  - rewrite for_0. case_decide; [lia | reflexivity].
  - rewrite for_S, list_lookup_insert, for_insert_length.
    destruct (decide (n = i ∧ (n < length a)%nat)) as [[-> Hlt]|Hne].
    + rewrite decide_True by lia.
      rewrite list_lookup_total_alt, IH, decide_False by lia.
      destruct (lookup_lt_is_Some_2 a i Hlt) as [x Hx].
      rewrite Hx. reflexivity.
    + rewrite IH.
      destruct (decide (i < n)%nat), (decide (i < Datatypes.S n)%nat);
        try reflexivity; try lia.
      assert (i = n) as -> by lia.
      rewrite lookup_ge_None_2 by lia. reflexivity.
Qed.

(** A loop whose iteration [l] writes a value into the entry [l]. *)
Lemma for_insert_const_lookup {A : Type} (f : nat -> A) n (a : list A) i :
  (i < n)%nat -> (i < length a)%nat ->
  for_ n (fun l a => <[l := f l]> a) a !! i = Some (f i).
Proof.
  intros Hi Hlen. induction n as [|n IH]; [lia|].
  assert (Hl : forall m, length (for_ m (fun l a => <[l := f l]> a) a) = length a).
  { intros m. induction m as [|m IHm]; [reflexivity|].
    rewrite for_S, length_insert. exact IHm. }
  rewrite for_S. destruct (decide (i = n)) as [->|Hne].
  - apply list_lookup_insert_eq. rewrite Hl. exact Hlen.
  - rewrite list_lookup_insert_ne by lia. apply IH. lia.
Qed.

(** A loop whose every iteration maps each of the first [m] entries by a
    function of its own maps each of them by the loop of these functions. *)
Lemma for_lookup_fmap {A : Type} (body : nat -> list A -> list A)
    (G : nat -> nat -> A -> A) (m n : nat) :
  (forall l fs i, (i < m)%nat -> body l fs !! i = G l i <$> fs !! i) ->
  forall fs i, (i < m)%nat ->
    for_ n body fs !! i = (fun x => for_ n (fun l x => G l i x) x) <$> fs !! i.
Proof.
  intros Hbody fs i Hi. induction n as [|n IH].
  - rewrite for_0. destruct (fs !! i); reflexivity.
  - rewrite for_S, Hbody, IH by assumption.
    destruct (fs !! i); simpl; [rewrite for_S|]; reflexivity.
Qed.

End Loops.

(** ** The operator tables *)

Section Operator_tables.
Context {TT : CRT_Template}.

Lemma CPoint_dot_scale (k alpha : CPoint) :
  length alpha = length k ->
  CPoint_dot (CPoint_scale k alpha) k = kinetic_form alpha k.
Proof.
  unfold CPoint_dot, CPoint_scale.
  revert alpha. induction k as [|kj k IH]; intros [|a alpha] Hlen;
    simpl in *; try reflexivity; try discriminate.
  rewrite IH by lia. lra.
Qed.

Lemma Init_steps (st : CRT_Base) :
  let phi i := - dt (m_header st)
               * CPoint_dot (CPoint_scale (Get_k i) (m_alpha st)) (Get_k i) in
  m_full_step (Init st) =
    for_ (m_no_of_pts st) (fun i a => <[i := (cos (phi i), sin (phi i))]> a)
      (m_full_step st) /\
  m_half_step (Init st) =
    for_ (m_no_of_pts st)
      (fun i a => <[i := (cos (0.5 * phi i), sin (0.5 * phi i))]> a)
      (m_half_step st).
Proof.
  intros phi. unfold Init. simpl.
  rewrite (for_pair
    (fun i a => <[i := (cos (phi i), sin (phi i))]> a)
    (fun i a => <[i := (cos (0.5 * phi i), sin (0.5 * phi i))]> a)).
  split; reflexivity.
Qed.

(** C4: [Init] writes, at every grid point [i] with momentum coordinate
    [k = Get_k(i)], the pair (cos(phi/2), sin(phi/2)) into the half-step
    table and (cos(phi), sin(phi)) into the full-step table, where
    phi = -dt * (k . diag(alpha) . k); on a one-dimensional grid with
    alpha = [1] the half-step entry is (cos(-dt*k^2/2), sin(-dt*k^2/2)). *)
Theorem Init_operator_tables (st : CRT_Base) (i : nat) :
  (i < m_no_of_pts st)%nat ->
  length (m_half_step st) = m_no_of_pts st ->
  length (m_full_step st) = m_no_of_pts st ->
  length (m_alpha st) = length (Get_k i) ->
  let phi := - dt (m_header st) * kinetic_form (m_alpha st) (Get_k i) in
  m_half_step (Init st) !! i = Some (cos (phi / 2), sin (phi / 2)) /\
  m_full_step (Init st) !! i = Some (cos phi, sin phi) /\
  (forall k : R, m_alpha st = [1] -> Get_k i = [k] ->
     m_half_step (Init st) !! i =
       Some (cos (- dt (m_header st) * (k * k) / 2),
             sin (- dt (m_header st) * (k * k) / 2))).
Proof.
  intros Hi Hhalf Hfull Hlen phi.
  destruct (Init_steps st) as [Efull Ehalf].
  assert (Hh : m_half_step (Init st) !! i = Some (cos (phi / 2), sin (phi / 2))).
  { rewrite Ehalf, for_insert_const_lookup by lia.
    rewrite CPoint_dot_scale by assumption.
    subst phi. do 3 f_equal; lra. }
  split; [exact Hh|]. split.
  - rewrite Efull, for_insert_const_lookup by lia.
    rewrite CPoint_dot_scale by assumption. reflexivity.
  - intros k Ealpha Ek. rewrite Hh. subst phi. rewrite Ealpha, Ek. simpl.
    do 3 f_equal; lra.
Qed.

End Operator_tables.

Lemma Init_operator_tables_witness :
  (1 < m_no_of_pts Demo.engine)%nat /\
  m_half_step (Init Demo.engine) !! 1%nat =
    Some (cos (- dt (m_header Demo.engine) * (1 * 1) / 2),
          sin (- dt (m_header Demo.engine) * (1 * 1) / 2)).
Proof.
  split; [simpl; lia|].
  apply (Init_operator_tables Demo.engine 1); simpl; (lia || reflexivity).
Defined.

(** ** The nonlinear step *)

Section Nonlinear_step.
Context {TT : CRT_Template}.

Lemma NL_phase_lookup st d fields l i :
  (i < no_int_states)%nat ->
  NL_phase st d fields l !! i = Some (potential_at st i l * d).
Proof.
  intros Hi. unfold NL_phase.
  rewrite (for_insert_const_lookup
    (fun i =>
       (if Rle_dec (((fields !!! i) !!! l).1 * ((fields !!! i) !!! l).1
                    + ((fields !!! i) !!! l).2 * ((fields !!! i) !!! l).2) 0
        then (if m_potenial_initialized st then (m_Potential st !!! i) !!! l else 0) + 0
        else (if m_potenial_initialized st then (m_Potential st !!! i) !!! l else 0))
       * d)).
  - unfold potential_at. f_equal. destruct (Rle_dec _ _); lra.
  - exact Hi.
  - rewrite length_replicate. exact Hi.
Qed.

Lemma NL_body_lookup st l (fields : list (list fftw_complex)) i :
  (i < no_int_states)%nat ->
  for_ no_int_states
    (fun i fs =>
       let im1 := sin (NL_phase st (- dt (m_header st)) fields l !!! i) in
       let re1 := cos (NL_phase st (- dt (m_header st)) fields l !!! i) in
       <[i := <[l := rotate ((fs !!! i) !!! l) re1 im1]> (fs !!! i)]> fs)
    fields !! i
  = NL_at st i l <$> fields !! i.
Proof.
  intros Hi.
  rewrite (for_insert_lookup
    (fun i Psi =>
       <[l := rotate (Psi !!! l)
                (cos (NL_phase st (- dt (m_header st)) fields l !!! i))
                (sin (NL_phase st (- dt (m_header st)) fields l !!! i))]> Psi)).
  rewrite decide_True by exact Hi.
  rewrite (list_lookup_total_correct _ _ _ (NL_phase_lookup st _ fields l i Hi)).
  reflexivity.
Qed.

Lemma Do_NL_Step_lookup st i :
  (i < no_int_states)%nat ->
  m_fields (Do_NL_Step st) !! i =
  (fun Psi => for_ (m_no_of_pts st) (fun l Psi => NL_at st i l Psi) Psi)
    <$> m_fields st !! i.
Proof.
  intros Hi. unfold Do_NL_Step. simpl.
  apply (for_lookup_fmap _ (fun l i => NL_at st i l) no_int_states); [|exact Hi].
  intros l fs j Hj. apply NL_body_lookup. exact Hj.
Qed.

(** C5: [Do_NL_Step] multiplies the value [(re, im)] of every internal
    state [i] at every point [l] by (cos(phi), sin(phi)), as complex numbers:
    the new value is [(re*cos(phi) - im*sin(phi), im*cos(phi) + re*sin(phi))],
    with phi = -dt * V, where V is the static potential of [i] at [l] once the
    potential is initialised, and zero before, when the value is left as it
    is; the phase the step computes does not depend on the field, hence not
    on the density, whatever its sign. *)
Theorem Do_NL_Step_rotation (st : CRT_Base) (i l : nat) (psi : fftw_complex) :
  (i < no_int_states)%nat ->
  (l < m_no_of_pts st)%nat ->
  point (m_fields st) i l = Some psi ->
  let phi := - dt (m_header st) * potential_at st i l in
  point (m_fields (Do_NL_Step st)) i l
    = Some (psi.1 * cos phi - psi.2 * sin phi, psi.2 * cos phi + psi.1 * sin phi) /\
  (forall fields, NL_phase st (- dt (m_header st)) fields l !! i = Some phi) /\
  (m_potenial_initialized st = false ->
     phi = 0 /\ point (m_fields (Do_NL_Step st)) i l = Some psi) /\
  (forall V v, m_potenial_initialized st = true ->
     m_Potential st !! i = Some V -> V !! l = Some v ->
     phi = - dt (m_header st) * v).
Proof.
  intros Hi Hl Hpsi phi.
  assert (Hnew : point (m_fields (Do_NL_Step st)) i l
            = Some (psi.1 * cos phi - psi.2 * sin phi,
                    psi.2 * cos phi + psi.1 * sin phi)).
  { unfold point in *. rewrite Do_NL_Step_lookup by exact Hi.
    destruct (m_fields st !! i) as [Psi|]; [simpl in *|discriminate].
    unfold NL_at.
    rewrite (for_insert_lookup
      (fun l z => rotate z (cos (potential_at st i l * - dt (m_header st)))
                    (sin (potential_at st i l * - dt (m_header st))))).
    rewrite decide_True by exact Hl. rewrite Hpsi. simpl.
    unfold rotate. simpl.
    replace (potential_at st i l * - dt (m_header st)) with phi
      by (subst phi; lra).
    reflexivity. }
  split; [exact Hnew|]. split; [|split].
  - intros fields. rewrite NL_phase_lookup by exact Hi. subst phi. f_equal. lra.
  - intros Hinit.
    assert (Hphi : phi = 0).
    { subst phi. unfold potential_at. rewrite Hinit. lra. }
    split; [exact Hphi|].
    rewrite Hnew, Hphi, cos_0, sin_0. destruct psi as [re im]. simpl.
    do 2 f_equal; lra.
  - intros V v Hinit HV Hv. subst phi. unfold potential_at. rewrite Hinit.
    rewrite (list_lookup_total_correct _ _ _ HV), (list_lookup_total_correct _ _ _ Hv).
    reflexivity.
Qed.

End Nonlinear_step.

Lemma Do_NL_Step_rotation_witness :
  point (m_fields Demo.engine_V) 0 0 = Some (1, 0) /\
  point (m_fields (Do_NL_Step Demo.engine_V)) 0 0 = Some (-1, 0).
Proof.
  split; [reflexivity|].
  destruct (Do_NL_Step_rotation Demo.engine_V 0 0 (1, 0)) as (E & _);
    [simpl; lia|simpl; lia|reflexivity|].
  rewrite E.
  assert (Hphi : - dt (m_header Demo.engine_V) * potential_at Demo.engine_V 0 0 = - PI).
  { unfold potential_at. simpl. lra. }
  rewrite Hphi, cos_neg, sin_neg, cos_PI, sin_PI. simpl. do 2 f_equal; lra.
Defined.

(** ** The component index and the reductions *)

Section Component_index.
Context {TT : CRT_Template}.

(** The guard rejects a negative index and an index above [no_int_states],
    and leaves the engine as it was. *)
Lemma field_of_out_of_bounds (func : string) (comp : Z) (w : World) :
  (comp < 0 ∨ comp > Z.of_nat no_int_states)%Z ->
  field_of func comp w =
    Throw ("Error in " +:+ func +:+ ": comp out of bounds" +:+ LF) w.
Proof.
  intros Hcomp. unfold field_of. mrun.
  rewrite bool_decide_true by exact Hcomp. reflexivity.
Qed.

Lemma field_of_in_range (func : string) (comp : Z) (w : World) :
  (0 <= comp < Z.of_nat no_int_states)%Z ->
  length (m_fields (self w)) = no_int_states ->
  exists Psi, m_fields (self w) !! Z.to_nat comp = Some Psi /\
              field_of func comp w = Ok Psi w.
Proof.
  intros Hcomp Hlen.
  destruct (lookup_lt_is_Some_2 (m_fields (self w)) (Z.to_nat comp)) as [Psi HPsi];
    [lia|].
  exists Psi. split; [exact HPsi|].
  unfold field_of. mrun. rewrite bool_decide_false by lia.
  rewrite HPsi. reflexivity.
Qed.

(** The index [no_int_states] itself passes the guard and reads past the
    end of [m_fields]. *)
Lemma field_of_no_int_states (func : string) (w : World) :
  length (m_fields (self w)) = no_int_states ->
  field_of func (Z.of_nat no_int_states) w = Undefined.
Proof.
  intros Hlen. unfold field_of. mrun.
  rewrite bool_decide_false by lia.
  rewrite Nat2Z.id, lookup_ge_None_2 by lia. reflexivity.
Qed.

(** C1, at the index [no_int_states]: none of [Setup_Momentum],
    [Get_Particle_Number], [Expval_Position] and [Expval_Momentum] throws;
    each passes the guard [comp>no_int_states] and indexes [m_fields] past
    its end. *)
Theorem comp_no_int_states_not_rejected (w : World) (px : CPoint) :
  length (m_fields (self w)) = no_int_states ->
  let comp := Z.of_nat no_int_states in
  Setup_Momentum px comp w = Undefined /\
  Get_Particle_Number comp w = Undefined /\
  Expval_Position comp w = Undefined /\
  Expval_Momentum comp w = Undefined.
Proof.
  intros Hlen comp.
  unfold Setup_Momentum, Get_Particle_Number, Expval_Position, Expval_Momentum.
  unfold mbind, M_bind, bind.
  rewrite !field_of_no_int_states by exact Hlen. repeat split.
Qed.

(** Outside [0, no_int_states], and not at [no_int_states], the four
    functions throw and the world is the one before the call. *)
Lemma comp_out_of_bounds_throws (w : World) (px : CPoint) (comp : Z) :
  (comp < 0 ∨ comp > Z.of_nat no_int_states)%Z ->
  (exists msg, Setup_Momentum px comp w = Throw msg w) /\
  (exists msg, Get_Particle_Number comp w = Throw msg w) /\
  (exists msg, Expval_Position comp w = Throw msg w) /\
  (exists msg, Expval_Momentum comp w = Throw msg w).
Proof.
  intros Hcomp.
  unfold Setup_Momentum, Get_Particle_Number, Expval_Position, Expval_Momentum.
  unfold mbind, M_bind, bind.
  rewrite !field_of_out_of_bounds by exact Hcomp.
  repeat split; eexists; reflexivity.
Qed.

Lemma set_self_id (w : World) : set_self (self w) w = w.
Proof. destruct w; reflexivity. Qed.

(** C8: with a transform whose inverse undoes its forward direction,
    [Expval_Momentum] on a valid component accumulates over the transformed
    field and returns with the world, hence that field and every other one,
    as before the call. *)
Theorem Expval_Momentum_restores (w : World) (comp : Z) :
  (forall Psi, ft 1 (ft (-1) Psi) = Psi) ->
  (0 <= comp < Z.of_nat no_int_states)%Z ->
  length (m_fields (self w)) = no_int_states ->
  exists Psi,
    m_fields (self w) !! Z.to_nat comp = Some Psi /\
    Expval_Momentum comp w =
      Ok (scaled (m_ar_k (self w))
            (expval_sum (m_no_of_pts (self w)) Get_k (ft (-1) Psi)))
         w.
Proof.
  intros Hft Hcomp Hlen.
  destruct (field_of_in_range "Expval_Momentum" comp w Hcomp Hlen) as (Psi & HPsi & E).
  exists Psi. split; [exact HPsi|].
  unfold Expval_Momentum. unfold mbind, M_bind, bind. rewrite E. mrun.
  f_equal. rewrite list_insert_insert_eq, Hft, (list_insert_id _ _ _ HPsi).
  destruct w as [st ? ? ? ?]; simpl. unfold set_self; simpl. f_equal.
  destruct st; reflexivity.
Qed.

(** C6, before [Init_Potential]: [Setup_Potential] writes its message to
    [std::cerr] and executes [throw;] with no exception being handled, which
    aborts the process; nothing is thrown to the caller. *)
Theorem Setup_Potential_uninitialized (w : World) (comp index : Z) (val : R) :
  m_potenial_initialized (self w) = false ->
  handling w = None ->
  Setup_Potential comp index val w = Abort (eprint Err_potential_not_initialized w).
Proof.
  intros Hinit Hnone. unfold Setup_Potential. mrun.
  rewrite Hinit. simpl. rewrite Hnone. reflexivity.
Qed.

End Component_index.

(** [Demo.world_V] is what [Init_Potential] and then
    [Setup_Potential(0, 0, PI)] make of [Demo.world]. *)
Lemma Demo_world_V_built :
  (modify_self Init_Potential;; Setup_Potential 0 0 PI) Demo.world
  = Ok tt Demo.world_V.
Proof. reflexivity. Qed.

Lemma comp_no_int_states_not_rejected_witness :
  length (m_fields (self Demo.world)) = no_int_states /\
  Get_Particle_Number 2 Demo.world = Undefined.
Proof.
  split; [reflexivity|].
  exact (proj1 (proj2 (comp_no_int_states_not_rejected Demo.world [0] eq_refl))).
Defined.

Lemma scaling_ft_round_trip (Psi : list fftw_complex) :
  Demo.scaling_ft 1 (Demo.scaling_ft (-1) Psi) = Psi.
Proof.
  unfold Demo.scaling_ft. rewrite <- list_fmap_compose.
  induction Psi as [|[re im] Psi IH]; [reflexivity|].
  rewrite fmap_cons, IH. simpl. do 2 f_equal; lra.
Qed.

Lemma Expval_Momentum_restores_witness :
  exists Psi,
    m_fields (self Demo.world) !! 0%nat = Some Psi /\
    Expval_Momentum 0 Demo.world =
      Ok (scaled (m_ar_k (self Demo.world))
            (expval_sum (m_no_of_pts (self Demo.world)) Get_k (ft (-1) Psi)))
         Demo.world.
Proof.
  apply (Expval_Momentum_restores Demo.world 0).
  - exact scaling_ft_round_trip.
  - simpl. lia.
  - reflexivity.
Defined.

Lemma Setup_Potential_uninitialized_witness :
  Setup_Potential 0 0 1 Demo.world =
    Abort (eprint Err_potential_not_initialized Demo.world).
Proof.
  apply (Setup_Potential_uninitialized Demo.world 0 0 1); reflexivity.
Defined.

(** ** The number of outer iterations of a stage *)

Section Iterations.

Lemma max_of_snoc (l : list R) (d : R) : max_of (l ++ [d]) = Rmax (max_of l) d.
Proof.
  unfold max_of. induction l as [|a l IH]; simpl.
  - apply Rmax_comm.
  - rewrite IH. apply Rmax_assoc.
Qed.

Lemma max_of_nonneg (l : list R) : 0 <= max_of l.
Proof.
  unfold max_of. induction l as [|a l IH]; simpl; [lra|].
  eapply Rle_trans; [exact IH|apply Rmax_r].
Qed.

Lemma truncate_IZR (z : Z) : truncate (IZR z) = z.
Proof.
  unfold truncate. destruct (Rle_dec 0 (IZR z)).
  - symmetry. apply Int_part_spec. lra.
  - rewrite <- opp_IZR. rewrite <- (Int_part_spec (IZR (- z)) (- z)); [lia|lra].
Qed.

Lemma truncate_nonneg (x : R) : 0 <= x -> truncate x = Int_part x.
Proof.
  intros Hx. unfold truncate. destruct (Rle_dec 0 x); [reflexivity|lra].
Qed.

Lemma Int_part_nonneg (x : R) : 0 <= x -> (0 <= Int_part x)%Z.
Proof.
  intros Hx. destruct (base_Int_part x) as [_ Hlt].
  apply Z.lt_succ_r. apply lt_IZR. rewrite succ_IZR. lra.
Qed.

(** The integer part of a quotient of two integers is their quotient
    rounded down. *)
Lemma Int_part_quotient (m d : Z) :
  (0 < d)%Z -> Int_part (IZR m / IZR d) = (m / d)%Z.
Proof.
  intros Hd. symmetry. apply Int_part_spec.
  pose proof (Z.mul_div_le m d Hd) as Hle.
  pose proof (Z.mul_succ_div_gt m d Hd) as Hgt.
  apply IZR_le in Hle. apply IZR_lt in Hgt. apply IZR_lt in Hd.
  rewrite mult_IZR in Hle. rewrite mult_IZR, succ_IZR in Hgt.
  set (q := IZR (m / d)) in *. set (D := IZR d) in *. set (Mm := IZR m) in *.
  assert (E : Mm / D * D = Mm) by (field; lra).
  split.
  - assert (q + 1 > Mm / D); [|lra].
    apply (Rmult_lt_reg_r D); lra.
  - apply (Rmult_le_reg_r D); lra.
Qed.

(** The conversion of a [double] to [int], where it is defined, gives the
    number the [double] holds without its fractional part, and an [int]. *)
Lemma double_to_int_truncates (x : double) (z : Z) :
  double_to_int x = Some z ->
  z = truncate (double_value x) /\ (INT_MIN <= z <= INT_MAX)%Z.
Proof.
  unfold double_to_int, double_value.
  destruct (FloatOps.Prim2SF x) as [s|s| |s m e]; try discriminate.
  - intros [= <-].
    split; [symmetry; apply (truncate_IZR 0)|unfold INT_MIN, INT_MAX; lia].
  - cbv zeta.
    destruct (_ && _)%Z eqn:Hr; [|discriminate]. intros [= <-].
    apply andb_prop in Hr. destruct Hr as [H1 H2].
    apply Z.leb_le in H1, H2. split; [|lia]. clear H1 H2.
    destruct (0 <=? e)%Z eqn:He.
    + rewrite truncate_IZR. destruct s; lia.
    + apply Z.leb_gt in He.
      assert (Hd : (0 < 2 ^ (- e))%Z) by (apply Z.pow_pos_nonneg; lia).
      pose proof (IZR_lt _ _ Hd) as HD. simpl in HD.
      assert (Hq : 0 < IZR (Z.pos m) / IZR (2 ^ (- e))).
      { apply Rdiv_lt_0_compat; [apply (IZR_lt 0); lia|exact HD]. }
      unfold truncate. destruct s.
      * change (Z.neg m) with (- Z.pos m)%Z. rewrite opp_IZR.
        replace (- IZR (Z.pos m) / IZR (2 ^ (- e)))
          with (- (IZR (Z.pos m) / IZR (2 ^ (- e)))) by (field; lra).
        destruct (Rle_dec _ _); [lra|].
        rewrite Ropp_involutive, Int_part_quotient by exact Hd. reflexivity.
      * destruct (Rle_dec _ _); [|lra].
        rewrite Int_part_quotient by exact Hd. reflexivity.
Qed.

(** The order of binary64 is transitive and irreflexive. *)
Lemma SFltb_trans (a b c : SpecFloat.spec_float) :
  SpecFloat.SFltb a b = true -> SpecFloat.SFltb b c = true ->
  SpecFloat.SFltb a c = true.
Proof.
  unfold SpecFloat.SFltb, SpecFloat.SFcompare.
  destruct a as [[]|[]| |[] ma ea], b as [[]|[]| |[] mb eb], c as [[]|[]| |[] mc ec];
    try discriminate; try reflexivity.
  all: destruct (Z.compare_spec ea eb), (Z.compare_spec eb ec), (Z.compare_spec ea ec);
    try discriminate; try reflexivity; try lia; subst.
  all: rewrite ?Pos.compare_cont_spec; simpl;
    destruct (Pos.compare_spec ma mb), (Pos.compare_spec mb mc), (Pos.compare_spec ma mc);
    simpl; try discriminate; try reflexivity; try lia.
Qed.

Lemma SFltb_irrefl (a : SpecFloat.spec_float) : SpecFloat.SFltb a a = false.
Proof.
  unfold SpecFloat.SFltb, SpecFloat.SFcompare.
  destruct a as [[]|[]| |[] m e]; try reflexivity.
  all: rewrite Z.compare_refl, ?Pos.compare_cont_spec, Pos.compare_refl; reflexivity.
Qed.

Lemma ltb_trans (a b c : double) :
  PrimFloat.ltb a b = true -> PrimFloat.ltb b c = true -> PrimFloat.ltb a c = true.
Proof. rewrite !FloatAxioms.ltb_spec. apply SFltb_trans. Qed.

Lemma ltb_irrefl (a : double) : PrimFloat.ltb a a = false.
Proof. rewrite FloatAxioms.ltb_spec. apply SFltb_irrefl. Qed.

(** The loop of lines 731-734 computes a largest duration, from zero; a
    duration that is a NaN is passed over. *)
Lemma max_duration_of_is_max (seq : sequence_item) :
  is_max_duration (seq_duration seq) (max_duration_of seq).
Proof.
  unfold max_duration_of. generalize (seq_duration seq). intros l.
  assert (H : forall n, (n <= length l)%nat ->
            is_max_duration (take n l)
              (for_ n (fun i m => if PrimFloat.ltb m (l !!! i) then l !!! i else m)
                 PrimFloat.zero)).
  2: { specialize (H (length l) (le_n _)). rewrite firstn_all in H. exact H. }
  induction n as [|n IH]; intros Hn.
  - split; [left; reflexivity|]. split; [reflexivity|constructor].
  - destruct (lookup_lt_is_Some_2 l n) as [d Hd]; [lia|].
    destruct IH as (Hin & Hzero & Hall); [lia|].
    rewrite for_S, (take_S_r _ _ _ Hd), (list_lookup_total_correct _ _ _ Hd).
    set (m := for_ n _ _) in *.
    destruct (PrimFloat.ltb m d) eqn:Hlt.
    + split; [right; apply elem_of_app; right; constructor|].
      split.
      * destruct (PrimFloat.ltb d PrimFloat.zero) eqn:Hd0; [|reflexivity].
        rewrite (ltb_trans _ _ _ Hlt Hd0) in Hzero. discriminate.
      * apply Forall_app. split.
        -- eapply Forall_impl; [exact Hall|]. intros d0 Hd0. simpl in Hd0.
           destruct (PrimFloat.ltb d d0) eqn:Hdd; [|reflexivity].
           rewrite (ltb_trans _ _ _ Hlt Hdd) in Hd0. discriminate.
        -- constructor; [apply ltb_irrefl|constructor].
    + split; [|split; [exact Hzero|]].
      * destruct Hin as [Hin|Hin]; [left; exact Hin|].
        right. apply elem_of_app. left. exact Hin.
      * apply Forall_app. split; [exact Hall|]. constructor; [exact Hlt|constructor].
Qed.

(** The division of two [int], where it is defined, truncates, and rounds
    down when neither operand is negative. *)
Lemma int_div_Some (a b : Z) :
  b <> 0%Z -> (a = INT_MIN -> b <> (-1)%Z) -> int_div a b = Some (a ÷ b)%Z.
Proof.
  intros Hb Hmin. unfold int_div.
  destruct (Z.eqb_spec b 0); [contradiction|].
  destruct (Z.eqb_spec a INT_MIN) as [Ea|]; [|reflexivity].
  destruct (Z.eqb_spec b (-1)) as [Eb|]; [|reflexivity].
  destruct (Hmin Ea Eb).
Qed.

Lemma Na_of_eq (seq : sequence_item) (subN : Z) :
  double_to_int (PrimFloat.div (max_duration_of seq) (seq_dt seq)) = Some subN ->
  seq_Nk seq <> 0%Z ->
  (subN = INT_MIN -> seq_Nk seq <> (-1)%Z) ->
  Na_of seq = Some (subN ÷ seq_Nk seq)%Z.
Proof.
  intros HsubN HNk Hmin. unfold Na_of. rewrite HsubN. simpl.
  apply int_div_Some; assumption.
Qed.

(** Where [Na] is defined it is the quotient of an [int] by [Nk]. *)
Lemma Na_of_inv (seq : sequence_item) (Na : Z) :
  Na_of seq = Some Na ->
  exists subN,
    double_to_int (PrimFloat.div (max_duration_of seq) (seq_dt seq)) = Some subN /\
    seq_Nk seq <> 0%Z /\ Na = (subN ÷ seq_Nk seq)%Z.
Proof.
  unfold Na_of.
  destruct (double_to_int _) as [subN|]; [simpl|discriminate].
  unfold int_div. destruct (Z.eqb_spec (seq_Nk seq) 0); [discriminate|].
  destruct (_ && _)%Z; [discriminate|]. intros [= <-].
  exists subN. split; [reflexivity|]. split; [assumption|reflexivity].
Qed.

(** The numbers the two [double] of [Demo.stage] hold. *)
Lemma double_value_finite (x : double) (s : bool) (m : positive) (e : Z) :
  FloatOps.Prim2SF x = SpecFloat.S754_finite s m e ->
  double_value x =
    if (0 <=? e)%Z then IZR ((if s then Z.neg m else Z.pos m) * 2 ^ e)
    else IZR (if s then Z.neg m else Z.pos m) / IZR (2 ^ (- e)).
Proof. intros E. unfold double_value. rewrite E. reflexivity. Qed.

Lemma double_value_10 : double_value (int_to_double 10) = 10.
Proof.
  rewrite (double_value_finite _ false 5629499534213120 (-49))
    by (vm_compute; reflexivity).
  change (2 ^ (- -49))%Z with 562949953421312%Z. cbn -[IZR Rdiv]. lra.
Qed.

Lemma double_value_1 : double_value (int_to_double 1) = 1.
Proof.
  rewrite (double_value_finite _ false 4503599627370496 (-52))
    by (vm_compute; reflexivity).
  change (2 ^ (- -52))%Z with 4503599627370496%Z. cbn -[IZR Rdiv]. lra.
Qed.

End Iterations.

Section Stage_prologue.
Context {TT : CRT_Template} {DD : CRT_Derived}.

Lemma bind_Ok {A B : Type} (m : M A) (f : A -> M B) (w w' : World) (a : A) :
  m w = Ok a w' -> (m ≫= f) w = f a w'.
Proof. intros E. unfold mbind, M_bind, bind. rewrite E. reflexivity. Qed.

Lemma ret_bind {A B : Type} (a : A) (k : A -> M B) (w : World) :
  (mret a ≫= k) w = k a w.
Proof. reflexivity. Qed.

Lemma modify_bind {B : Type} (f : World -> World) (k : M B) (w : World) :
  (modify f;; k) w = k (f w).
Proof. reflexivity. Qed.

Lemma modify_self_bind {B : Type} (f : CRT_Base -> CRT_Base) (k : M B) (w : World) :
  (modify_self f;; k) w = k (set_self (f (self w)) w).
Proof. reflexivity. Qed.

Lemma get_self_bind {B : Type} (k : CRT_Base -> M B) (w : World) :
  (get_self ≫= k) w = k (self w) w.
Proof. reflexivity. Qed.

Lemma Set_dt_same (st : CRT_Base) (d : R) : Get_dt st = d -> Set_dt d st = st.
Proof.
  destruct st as [[tm d'] ? ? ? ? ? ? ? ? ? ? ?]. unfold Get_dt, Set_dt; simpl.
  intros ->. reflexivity.
Qed.

(** A stage that is neither a custom one nor [set_momentum] prints its
    banner, sets the time step, and looks up its operator. *)
Lemma run_sequence_item_stage
    (half_step_fct full_step_fct : StepFunction) (seq : sequence_item)
    (seq_counter Na : Z) (w w1 : World) :
  run_custom_sequence seq w = Ok false w1 ->
  seq_name seq <> "set_momentum" ->
  Na_of seq = Some Na ->
  run_sequence_item half_step_fct full_step_fct seq seq_counter w =
    match m_map_stepfcts (self w1) !! seq_name seq with
    | Some step_fct =>
        (delete_packed seq_counter;;
         run_stage half_step_fct full_step_fct step_fct seq Na (seq_Nk seq)
           seq_counter) (stage_world seq seq_counter Na w1)
    | None =>
        Exit (eprint (Err_sequence_name (seq_name seq))
                (stage_world seq seq_counter Na w1))
    end.
Proof.
  intros Hcustom Hname HNa.
  unfold run_sequence_item.
  erewrite bind_Ok by exact Hcustom.
  rewrite bool_decide_false by exact Hname.
  rewrite HNa. cbv zeta. rewrite !modify_bind.
  fold (Na_Nk_dt seq Na).
  assert (Hw : forall wx,
    self wx = self w1 -> disk wx = disk w1 -> cerr wx = cerr w1 ->
    handling wx = handling w1 ->
    cout wx = cout w1 ++ stage_banner seq seq_counter Na ++ mismatch_line seq Na ->
    (if Req_dec_T (Get_dt (self wx)) (double_value (seq_dt seq))
     then mret tt else modify_self (Set_dt (double_value (seq_dt seq)))) wx
    = Ok tt (stage_world seq seq_counter Na w1)).
  { intros [st d co ce h]; simpl. intros -> -> -> -> ->.
    unfold stage_world.
    destruct (Req_dec_T (Get_dt (self w1)) (double_value (seq_dt seq))) as [Edt|Ndt].
    - rewrite (Set_dt_same _ _ Edt). reflexivity.
    - reflexivity. }
  assert (Hlookup : forall wx,
    self wx = Set_dt (double_value (seq_dt seq)) (self w1) ->
    m_map_stepfcts (self wx) !! seq_name seq
      = m_map_stepfcts (self w1) !! seq_name seq).
  { intros wx ->. reflexivity. }
  unfold mismatch_line in Hw.
  destruct (PrimFloat.eqb (Na_Nk_dt seq Na) (max_duration_of seq)).
  - rewrite ret_bind, get_self_bind.
    erewrite bind_Ok.
    2: { apply Hw; try reflexivity.
         unfold print, stage_banner; simpl. rewrite <- !app_assoc. reflexivity. }
    rewrite get_self_bind, Hlookup by reflexivity.
    destruct (m_map_stepfcts (self w1) !! seq_name seq); reflexivity.
  - rewrite modify_bind, get_self_bind.
    erewrite bind_Ok.
    2: { apply Hw; try reflexivity.
         unfold print, stage_banner; simpl. rewrite <- !app_assoc. reflexivity. }
    rewrite get_self_bind, Hlookup by reflexivity.
    destruct (m_map_stepfcts (self w1) !! seq_name seq); reflexivity.
Qed.

(** Where the conversion to [int] or the division by [Nk] is undefined, so
    is the stage. *)
Lemma run_sequence_item_undefined
    (half_step_fct full_step_fct : StepFunction) (seq : sequence_item)
    (seq_counter : Z) (w w1 : World) :
  run_custom_sequence seq w = Ok false w1 ->
  seq_name seq <> "set_momentum" ->
  Na_of seq = None ->
  run_sequence_item half_step_fct full_step_fct seq seq_counter w = Undefined.
Proof.
  intros Hcustom Hname HNa. unfold run_sequence_item.
  erewrite bind_Ok by exact Hcustom.
  rewrite bool_decide_false by exact Hname.
  rewrite HNa. reflexivity.
Qed.

(** C2, as the code has it: a stage that is neither a custom one nor
    [set_momentum] takes the largest of its durations (zero when none is
    positive), divides it by its time step in binary64, converts the quotient
    to [int] and divides that by [Nk]: it runs
    [Na = int(max_duration / dt) / Nk] outer iterations, where [int(q)] is
    the number the quotient holds without its fractional part and the integer
    division truncates (it rounds down when neither operand is negative).
    This holds where C++ defines the two operations: the truncated quotient
    is an [int], [Nk] is not zero, and the division is not that of [INT_MIN]
    by -1.  When [double(Na*Nk)*dt] differs from the duration, in binary64,
    the stage writes one more line to [std::cout] and goes on exactly as it
    does otherwise, to the lookup of its operator, the deletion of its packed
    files and its loop. *)
Theorem stage_iterations_and_mismatch
    (half_step_fct full_step_fct : StepFunction) (seq : sequence_item)
    (seq_counter subN : Z) (w w1 : World) :
  run_custom_sequence seq w = Ok false w1 ->
  seq_name seq <> "set_momentum" ->
  double_to_int (PrimFloat.div (max_duration_of seq) (seq_dt seq)) = Some subN ->
  seq_Nk seq <> 0%Z ->
  (subN = INT_MIN -> seq_Nk seq <> (-1)%Z) ->
  let Na := (subN ÷ seq_Nk seq)%Z in
  is_max_duration (seq_duration seq) (max_duration_of seq) /\
  subN = truncate (double_value (PrimFloat.div (max_duration_of seq) (seq_dt seq))) /\
  (INT_MIN <= subN <= INT_MAX)%Z /\
  Na_of seq = Some Na /\
  ((0 <= subN)%Z -> (0 < seq_Nk seq)%Z -> Na = (subN / seq_Nk seq)%Z) /\
  cout (stage_world seq seq_counter Na w1)
    = cout w1 ++ stage_banner seq seq_counter Na
      ++ (if PrimFloat.eqb
               (PrimFloat.mul (int_to_double (Na * seq_Nk seq)) (seq_dt seq))
               (max_duration_of seq)
          then [] else [FYI_mismatch]) /\
  cerr (stage_world seq seq_counter Na w1) = cerr w1 /\
  run_sequence_item half_step_fct full_step_fct seq seq_counter w =
    match m_map_stepfcts (self w1) !! seq_name seq with
    | Some step_fct =>
        (delete_packed seq_counter;;
         run_stage half_step_fct full_step_fct step_fct seq Na (seq_Nk seq)
           seq_counter) (stage_world seq seq_counter Na w1)
    | None =>
        Exit (eprint (Err_sequence_name (seq_name seq))
                (stage_world seq seq_counter Na w1))
    end.
Proof.
  intros Hcustom Hname HsubN HNk Hmin Na.
  pose proof (Na_of_eq seq subN HsubN HNk Hmin) as HNa. fold Na in HNa.
  destruct (double_to_int_truncates _ _ HsubN) as [Htrunc Hrange].
  split; [apply max_duration_of_is_max|].
  split; [exact Htrunc|]. split; [exact Hrange|]. split; [exact HNa|].
  split; [|split; [reflexivity|split; [reflexivity|]]].
  - intros Hpos HNkpos. subst Na. apply Z.quot_div_nonneg; assumption.
  - apply run_sequence_item_stage; assumption.
Qed.

End Stage_prologue.

Lemma Na_is_not_floor_of_duration_over_dt :
  Na_of (Demo.stage "freeprop" 2) = Some 5%Z /\
  floor_of_duration_over_dt (Demo.stage "freeprop" 2) = 10%Z /\
  Na_of (Demo.stage "freeprop" 2)
    <> Some (floor_of_duration_over_dt (Demo.stage "freeprop" 2)).
Proof.
  assert (ENa : Na_of (Demo.stage "freeprop" 2) = Some 5%Z)
    by (vm_compute; reflexivity).
  assert (Efl : floor_of_duration_over_dt (Demo.stage "freeprop" 2) = 10%Z).
  { unfold floor_of_duration_over_dt.
    cbn [Demo.stage seq_duration seq_dt fmap list_fmap].
    rewrite double_value_10, double_value_1.
    assert (Emax : max_of [10] / 1 = IZR 10).
    { unfold max_of; simpl. rewrite Rmax_left by lra. lra. }
    rewrite Emax. symmetry. apply Int_part_spec. lra. }
  split; [exact ENa|]. split; [exact Efl|].
  rewrite ENa, Efl. discriminate.
Qed.

(** The quotient is the binary64 one.  With the duration 0.06 and the time
    step 0.003 it is 20, where the quotient of the two numbers the [double]
    hold is below 20; with the duration 10, the time step 0.001 and 100
    sub-steps there are 100 outer iterations and no line of mismatch; with
    the duration 3e9 and the time step 1 the quotient is no [int]. *)
Lemma Na_of_binary64_quotient :
  Na_of (Demo_stages.stage_of Demo_stages.d_0_06 Demo_stages.d_0_003 1) = Some 20%Z /\
  floor_of_duration_over_dt
    (Demo_stages.stage_of Demo_stages.d_0_06 Demo_stages.d_0_003 1) = 19%Z /\
  Na_of (Demo_stages.stage_of (int_to_double 10) Demo_stages.d_0_001 100)
    = Some 100%Z /\
  mismatch_line (Demo_stages.stage_of (int_to_double 10) Demo_stages.d_0_001 100) 100
    = [] /\
  Na_of (Demo_stages.stage_of (int_to_double 3000000000) (int_to_double 1) 1) = None.
Proof.
  split; [vm_compute; reflexivity|]. split; [|repeat split; vm_compute; reflexivity].
  unfold floor_of_duration_over_dt.
  cbn [Demo_stages.stage_of seq_duration seq_dt fmap list_fmap].
  rewrite (double_value_finite Demo_stages.d_0_06 false 8646911284551352 (-57))
    by (vm_compute; reflexivity).
  rewrite (double_value_finite Demo_stages.d_0_003 false 6917529027641082 (-61))
    by (vm_compute; reflexivity).
  change (2 ^ (- -57))%Z with 144115188075855872%Z.
  change (2 ^ (- -61))%Z with 2305843009213693952%Z.
  cbn -[IZR Rdiv max_of Int_part].
  unfold max_of; simpl. rewrite Rmax_left by lra.
  symmetry. apply Int_part_spec. lra.
Qed.

Lemma stage_iterations_and_mismatch_witness :
  Na_of (Demo.stage "freeprop" 2) = Some (10 ÷ 2)%Z.
Proof.
  refine (proj1 (proj2 (proj2 (proj2 (stage_iterations_and_mismatch
            Do_FT_Step_half_Wrapper Do_FT_Step_full_Wrapper
            (Demo.stage "freeprop" 2) 1 10 Demo.world Demo.world _ _ _ _ _))))).
  - reflexivity.
  - discriminate.
  - vm_compute. reflexivity.
  - simpl. lia.
  - intros H. discriminate H.
Defined.

(** ** The operators of one outer iteration *)

Section Splitting.
Context {TT : CRT_Template}.

Lemma call_Ok (f : StepFunction) (seq : sequence_item) (w : World) :
  call f seq w = Ok tt (set_self (step_of f (self w)) w).
Proof.
  destruct f; simpl; try reflexivity.
  rewrite set_self_id. reflexivity.
Qed.

Lemma call_all_Ok (fs : list StepFunction) (seq : sequence_item) (w : World) :
  call_all fs seq w =
    Ok tt (set_self (foldl (fun st g => step_of g st) (self w) fs) w).
Proof.
  revert w. induction fs as [|f fs IH]; intros w; simpl.
  - rewrite set_self_id. reflexivity.
  - unfold mbind, M_bind, bind. rewrite call_Ok, IH. reflexivity.
Qed.

Lemma mrepeat_calls (n : nat) (s f : StepFunction) (seq : sequence_item) (w : World) :
  mrepeat n (call s seq;; call f seq) w =
    call_all (mjoin (replicate n [s; f])) seq w.
Proof.
  revert w. induction n as [|n IH]; intros w; [reflexivity|].
  simpl. unfold mbind, M_bind, bind. rewrite !call_Ok, IH. reflexivity.
Qed.

Lemma header_step_of (f : StepFunction) (st : CRT_Base) :
  m_header (step_of f st) =
    match f with
    | Do_FT_Step_full_Wrapper =>
        mk_header (t (m_header st) + dt (m_header st)) (dt (m_header st))
    | Do_FT_Step_half_Wrapper =>
        mk_header (t (m_header st) + 0.5 * dt (m_header st)) (dt (m_header st))
    | Do_NL_Step_Wrapper | Do_NL_Step_Wrapper_one => m_header st
    end.
Proof. destruct f; reflexivity. Qed.

Lemma splitting_step_calls
    (half_step_fct full_step_fct step_fct : StepFunction) (seq : sequence_item)
    (Nk : Z) (w : World) :
  splitting_step half_step_fct full_step_fct step_fct seq Nk w
    = call_all (splitting_schedule half_step_fct full_step_fct step_fct Nk) seq w.
Proof.
  unfold splitting_step, splitting_schedule.
  rewrite !call_all_Ok, !foldl_app. simpl.
  erewrite bind_Ok by apply call_Ok.
  erewrite bind_Ok by (rewrite mrepeat_calls; apply call_all_Ok).
  erewrite bind_Ok by apply call_Ok.
  rewrite call_Ok. reflexivity.
Qed.

Lemma splitting_step_Ok
    (half_step_fct full_step_fct step_fct : StepFunction) (seq : sequence_item)
    (Nk : Z) (w : World) :
  splitting_step half_step_fct full_step_fct step_fct seq Nk w
    = Ok tt (set_self
               (foldl (fun st g => step_of g st) (self w)
                  (splitting_schedule half_step_fct full_step_fct step_fct Nk))
               w).
Proof. rewrite splitting_step_calls. apply call_all_Ok. Qed.

(** C3, as the code has it: one outer iteration calls the half step, then
    [Nk-1] times the operator of the stage followed by the full step, then
    the operator of the stage, then the half step, and with [Nk = 1] the half
    step, the operator of the stage and the half step.  The operator of the
    stage is the step function registered under the name of the stage:
    [Do_NL_Step] for [freeprop], a function with an empty body for
    [freeprop_lin], the kinetic steps for [half_step] and [full_step]. *)
Theorem splitting_step_schedule
    (half_step_fct full_step_fct step_fct : StepFunction) (seq : sequence_item)
    (Nk : Z) (w : World) :
  let schedule := splitting_schedule half_step_fct full_step_fct step_fct Nk in
  splitting_step half_step_fct full_step_fct step_fct seq Nk w
    = call_all schedule seq w /\
  call_all schedule seq w
    = Ok tt (set_self (foldl (fun st g => step_of g st) (self w) schedule) w) /\
  splitting_schedule half_step_fct full_step_fct step_fct 1
    = [half_step_fct; step_fct; half_step_fct] /\
  ctor_map_stepfcts !! "freeprop" = Some Do_NL_Step_Wrapper /\
  ctor_map_stepfcts !! "freeprop_lin" = Some Do_NL_Step_Wrapper_one /\
  ctor_map_stepfcts !! "half_step" = Some Do_FT_Step_half_Wrapper /\
  ctor_map_stepfcts !! "full_step" = Some Do_FT_Step_full_Wrapper /\
  step_of Do_NL_Step_Wrapper = Do_NL_Step.
Proof.
  intros schedule.
  split; [apply splitting_step_calls|split; [apply call_all_Ok|repeat split]].
Qed.

Lemma header_pairs (n : nat) (s : StepFunction) (st : CRT_Base) :
  s = Do_NL_Step_Wrapper ∨ s = Do_NL_Step_Wrapper_one ->
  m_header (foldl (fun st g => step_of g st) st
              (mjoin (replicate n [s; Do_FT_Step_full_Wrapper])))
  = mk_header (t (m_header st) + INR n * dt (m_header st)) (dt (m_header st)).
Proof.
  intros Hs. revert st. induction n as [|n IH]; intros st.
  - simpl. destruct (m_header st); simpl. f_equal. lra.
  - change (mjoin (replicate (S n) [s; Do_FT_Step_full_Wrapper]))
      with ([s; Do_FT_Step_full_Wrapper]
            ++ mjoin (replicate n [s; Do_FT_Step_full_Wrapper])).
    rewrite foldl_app, IH. rewrite S_INR. simpl foldl.
    destruct Hs as [-> | ->]; simpl; f_equal; lra.
Qed.

(** C10, as the code has it: [Do_NL_Step] leaves the header, hence the
    accumulated time and the time step, as they are; and an outer iteration
    of a stage whose operator is [Do_NL_Step] or the empty one, with
    [Nk >= 1], advances the accumulated time by [Nk * dt] and keeps [dt]. *)
Theorem outer_iteration_time (step_fct : StepFunction) (seq : sequence_item)
    (Nk : Z) (w : World) :
  step_fct = Do_NL_Step_Wrapper ∨ step_fct = Do_NL_Step_Wrapper_one ->
  (1 <= Nk)%Z ->
  m_header (Do_NL_Step (self w)) = m_header (self w) /\
  exists w',
    splitting_step Do_FT_Step_half_Wrapper Do_FT_Step_full_Wrapper step_fct
      seq Nk w = Ok tt w' /\
    t (m_header (self w')) = t (m_header (self w)) + IZR Nk * dt (m_header (self w)) /\
    dt (m_header (self w')) = dt (m_header (self w)).
Proof.
  intros Hs HNk. split; [reflexivity|].
  rewrite splitting_step_Ok. eexists. split; [reflexivity|].
  unfold splitting_schedule. rewrite !foldl_app. cbn [foldl self set_self].
  assert (Hh : forall st, m_header (step_of step_fct st) = m_header st).
  { intros st. rewrite header_step_of. destruct Hs as [-> | ->]; reflexivity. }
  rewrite (header_step_of Do_FT_Step_half_Wrapper), Hh, (header_pairs _ _ _ Hs),
    (header_step_of Do_FT_Step_half_Wrapper).
  cbn [t dt].
  rewrite INR_IZR_INZ, Z2Nat.id by lia. rewrite minus_IZR.
  split; [lra|reflexivity].
Qed.

End Splitting.

Lemma ctor_lookup_freeprop_lin :
  m_map_stepfcts (self Demo.world_V) !! "freeprop_lin" = Some Do_NL_Step_Wrapper_one.
Proof. reflexivity. Qed.

Lemma ctor_lookup_half_step :
  m_map_stepfcts (self Demo.world) !! "half_step" = Some Do_FT_Step_half_Wrapper.
Proof. reflexivity. Qed.

(** On the stage named [freeprop_lin] the operator between the two half
    steps has an empty body: with the potential [PI] at the first point of
    the first internal state, one outer iteration with [Nk = 1] leaves the
    value 1 there, where the half step, [Do_NL_Step] and the half step leave
    -1. *)
Lemma freeprop_lin_stage_is_not_half_potential_half :
  exists step_fct w1 w2,
    m_map_stepfcts (self Demo.world_V) !! seq_name (Demo.stage "freeprop_lin" 1)
      = Some step_fct /\
    splitting_step Do_FT_Step_half_Wrapper Do_FT_Step_full_Wrapper step_fct
      (Demo.stage "freeprop_lin" 1) 1 Demo.world_V = Ok tt w1 /\
    call_all [Do_FT_Step_half_Wrapper; Do_NL_Step_Wrapper; Do_FT_Step_half_Wrapper]
      (Demo.stage "freeprop_lin" 1) Demo.world_V = Ok tt w2 /\
    point (m_fields (self w1)) 0 0 = Some (1, 0) /\
    point (m_fields (self w2)) 0 0 = Some (-1, 0) /\
    w1 <> w2.
Proof.
  exists Do_NL_Step_Wrapper_one. eexists. eexists.
  split; [exact ctor_lookup_freeprop_lin|].
  split; [apply splitting_step_Ok|].
  split; [apply call_all_Ok|].
  assert (H1 : point (m_fields (self (set_self
                 (foldl (fun st g => step_of g st) (self Demo.world_V)
                    (splitting_schedule Do_FT_Step_half_Wrapper
                       Do_FT_Step_full_Wrapper Do_NL_Step_Wrapper_one 1))
                 Demo.world_V))) 0 0 = Some (1, 0)).
  { cbv -[Rplus Rmult Rminus Ropp Rdiv Rinv cos sin IZR PI Rle_dec].
    do 2 f_equal; lra. }
  assert (H2 : point (m_fields (self (set_self
                 (foldl (fun st g => step_of g st) (self Demo.world_V)
                    [Do_FT_Step_half_Wrapper; Do_NL_Step_Wrapper;
                     Do_FT_Step_half_Wrapper])
                 Demo.world_V))) 0 0 = Some (-1, 0)).
  { cbv -[Rplus Rmult Rminus Ropp Rdiv Rinv cos sin IZR PI Rle_dec].
    assert (Ec : cos (PI * - (1)) = -1).
    { replace (PI * - (1)) with (- PI) by lra. rewrite cos_neg. apply cos_PI. }
    assert (Es : sin (PI * - (1)) = 0).
    { replace (PI * - (1)) with (- PI) by lra. rewrite sin_neg, sin_PI. lra. }
    destruct (Rle_dec _ _).
    - replace ((PI + 0) * - (1)) with (PI * - (1)) by lra.
      rewrite Ec, Es. do 2 f_equal; lra.
    - rewrite Ec, Es. do 2 f_equal; lra. }
  split; [exact H1|]. split; [exact H2|].
  intros E. rewrite E in H1. rewrite H1 in H2.
  injection H2 as H2. lra.
Qed.

(** On the stage named [half_step] an outer iteration with [Nk = 1] advances
    the time by three half steps, not by [Nk * dt]. *)
Lemma half_step_stage_advances_more_than_Nk_dt :
  exists step_fct w1,
    m_map_stepfcts (self Demo.world) !! seq_name (Demo.stage "half_step" 1)
      = Some step_fct /\
    splitting_step Do_FT_Step_half_Wrapper Do_FT_Step_full_Wrapper step_fct
      (Demo.stage "half_step" 1) 1 Demo.world = Ok tt w1 /\
    t (m_header (self Demo.world)) = 0 /\
    dt (m_header (self Demo.world)) = 1 /\
    t (m_header (self w1)) = 1.5 /\
    t (m_header (self w1))
      <> t (m_header (self Demo.world)) + IZR 1 * dt (m_header (self Demo.world)).
Proof.
  exists Do_FT_Step_half_Wrapper. eexists.
  split; [exact ctor_lookup_half_step|].
  split; [apply splitting_step_Ok|].
  split; [reflexivity|]. split; [reflexivity|].
  simpl. split; lra.
Qed.

Lemma outer_iteration_time_witness :
  exists w',
    splitting_step Do_FT_Step_half_Wrapper Do_FT_Step_full_Wrapper
      Do_NL_Step_Wrapper (Demo.stage "freeprop" 2) 2 Demo.world = Ok tt w' /\
    t (m_header (self w')) = 0 + 2 * 1 /\
    dt (m_header (self w')) = 1.
Proof.
  refine (proj2 (outer_iteration_time Do_NL_Step_Wrapper
            (Demo.stage "freeprop" 2) 2 Demo.world _ _)).
  - left. reflexivity.
  - lia.
Defined.

(** ** Packed files of a stage *)

Section Filenames.

Lemma string_length_app (s1 s2 : string) :
  String.length (s1 +:+ s2) = (String.length s1 + String.length s2)%nat.
Proof. induction s1 as [|a s1 IH]; simpl; [reflexivity|]. rewrite IH. reflexivity. Qed.

Lemma string_app_inv_tail (s1 s2 s : string) : s1 +:+ s = s2 +:+ s -> s1 = s2.
Proof.
  revert s2. induction s1 as [|a s1 IH]; intros [|b s2] E; simpl in E.
  - reflexivity.
  - apply (f_equal String.length) in E.
    rewrite ?string_length_app in E. simpl in E.
    rewrite ?string_length_app in E. lia.
  - apply (f_equal String.length) in E.
    rewrite ?string_length_app in E. simpl in E.
    rewrite ?string_length_app in E. lia.
  - injection E as -> E. f_equal. apply IH. exact E.
Qed.

Context {TT : CRT_Template}.

(** The packed files of one stage have different names for different
    internal states. *)
Lemma Seq_filename_inj (seq_counter : Z) (k k' : nat) :
  Seq_filename seq_counter k = Seq_filename seq_counter k' -> k = k'.
Proof.
  unfold Seq_filename. intros E.
  apply (String.app_inj "Seq_") in E.
  apply (String.app_inj (pretty seq_counter)) in E.
  apply (String.app_inj "_") in E.
  apply string_app_inv_tail in E.
  apply pretty_Z_inj in E. lia.
Qed.

End Filenames.

Section Monadic_loops.

Lemma mfor_list_inv (I : nat -> World -> Prop) (body : nat -> M unit)
    (len start : nat) (w : World) :
  I start w ->
  (forall i w, (start <= i < start + len)%nat -> I i w ->
     exists w', body i w = Ok tt w' /\ I (S i) w') ->
  exists w', mfor_list (seq start len) body w = Ok tt w' /\ I (start + len)%nat w'.
Proof.
  revert start w. induction len as [|len IH]; intros start w HI Hbody.
  - exists w. rewrite Nat.add_0_r. split; [reflexivity|exact HI].
  - destruct (Hbody start w) as (w1 & E1 & HI1); [lia|exact HI|].
    destruct (IH (S start) w1 HI1) as (w2 & E2 & HI2).
    { intros i wi Hi. apply Hbody. lia. }
    exists w2. split.
    + simpl. erewrite bind_Ok by exact E1. exact E2.
    + replace (start + S len)%nat with (S start + len)%nat by lia. exact HI2.
Qed.

(** The rule of the counted loop: an invariant of the body holds after
    it. *)
Lemma mfor_inv (I : nat -> World -> Prop) (body : nat -> M unit) (n : nat) (w : World) :
  I 0%nat w ->
  (forall i w, (i < n)%nat -> I i w -> exists w', body i w = Ok tt w' /\ I (S i) w') ->
  exists w', mfor n body w = Ok tt w' /\ I n w'.
Proof.
  intros HI Hbody.
  apply (mfor_list_inv I body n 0 w HI).
  intros i wi Hi. apply Hbody. lia.
Qed.

Lemma mrepeat_inv (I : nat -> World -> Prop) (body : M unit) (n : nat) (w : World) :
  I 0%nat w ->
  (forall i w, I i w -> exists w', body w = Ok tt w' /\ I (S i) w') ->
  exists w', mrepeat n body w = Ok tt w' /\ I n w'.
Proof.
  intros HI Hbody.
  assert (H : forall m w, I m w ->
            exists w', mrepeat n body w = Ok tt w' /\ I (m + n)%nat w').
  { induction n as [|n IH]; intros m wm Hm.
    - exists wm. rewrite Nat.add_0_r. split; [reflexivity|exact Hm].
    - destruct (Hbody m wm Hm) as (w1 & E1 & H1).
      destruct (IH (S m) w1 H1) as (w2 & E2 & H2).
      exists w2. split.
      + simpl. erewrite bind_Ok by exact E1. exact E2.
      + replace (m + S n)%nat with (S m + n)%nat by lia. exact H2. }
  apply (H 0%nat w HI).
Qed.

End Monadic_loops.

Section Field_count.
Context {TT : CRT_Template}.

Lemma for_length {A : Type} (body : nat -> list A -> list A) (n : nat) (a : list A) :
  (forall l a, length (body l a) = length a) ->
  length (for_ n body a) = length a.
Proof.
  intros Hbody. induction n as [|n IH]; [reflexivity|].
  rewrite for_S, Hbody. exact IH.
Qed.

Lemma ft_all_length d fields : length (ft_all d fields) = length fields.
Proof. apply for_length. intros. apply length_insert. Qed.

Lemma apply_step_length N step fields :
  length (apply_step N step fields) = length fields.
Proof. apply for_length. intros. apply length_insert. Qed.

(** No step function changes the number of fields. *)
Lemma step_of_fields_length (f : StepFunction) (st : CRT_Base) :
  length (m_fields (step_of f st)) = length (m_fields st).
Proof.
  destruct f; simpl.
  - rewrite ft_all_length, apply_step_length, ft_all_length. reflexivity.
  - rewrite ft_all_length, apply_step_length, ft_all_length. reflexivity.
  - apply for_length. intros l a. apply for_length. intros. apply length_insert.
  - reflexivity.
Qed.

Lemma steps_fields_length (fs : list StepFunction) (st : CRT_Base) :
  length (m_fields (foldl (fun st g => step_of g st) st fs)) = length (m_fields st).
Proof.
  revert st. induction fs as [|f fs IH]; intros st; [reflexivity|].
  simpl. rewrite IH. apply step_of_fields_length.
Qed.

End Field_count.

Section Packed_files.
Context {TT : CRT_Template} {DD : CRT_Derived}.

Lemma Append_Phi_Ok (filename : string) (k : nat) (w : World) :
  (k < no_int_states)%nat ->
  length (m_fields (self w)) = no_int_states ->
  can_append filename = true ->
  exists fr,
    Append_Phi filename (Z.of_nat k) w =
      Ok tt (set_disk (<[filename := default [] (disk w !! filename) ++ [fr]]> (disk w)) w).
Proof.
  intros Hk Hlen Hcan.
  destruct (field_of_in_range "Append_Phi" (Z.of_nat k) w) as (Psi & _ & E);
    [lia|exact Hlen|].
  exists (mk_frame (m_header (self w)) Psi).
  unfold Append_Phi. erewrite bind_Ok by exact E.
  rewrite get_self_bind, Hcan. reflexivity.
Qed.

(** The loop of lines 794-798 adds one frame to the packed file of every
    internal state, and touches nothing else but the files. *)
Lemma append_all (seq_counter : Z) (w : World) :
  length (m_fields (self w)) = no_int_states ->
  (forall k, (k < no_int_states)%nat -> can_append (Seq_filename seq_counter k) = true) ->
  exists w',
    mfor no_int_states
      (fun k => Append_Phi (Seq_filename seq_counter k) (Z.of_nat k)) w = Ok tt w' /\
    self w' = self w /\
    forall k, (k < no_int_states)%nat ->
      length (packed_frames w' seq_counter k)
      = S (length (packed_frames w seq_counter k)).
Proof.
  intros Hlen Hcan.
  destruct (mfor_inv
    (fun j w' =>
       self w' = self w /\
       forall k, (k < no_int_states)%nat ->
         length (packed_frames w' seq_counter k)
         = (length (packed_frames w seq_counter k)
            + if decide (k < j)%nat then 1 else 0)%nat)
    (fun k => Append_Phi (Seq_filename seq_counter k) (Z.of_nat k))
    no_int_states w) as (w' & E & Hself & Hframes).
  - split; [reflexivity|]. intros k Hk. rewrite decide_False by lia. lia.
  - intros j wj Hj [Hself Hframes].
    destruct (Append_Phi_Ok (Seq_filename seq_counter j) j wj Hj) as [fr Efr];
      [rewrite Hself; exact Hlen|apply Hcan; exact Hj|].
    eexists. split; [exact Efr|]. split; [exact Hself|].
    intros k Hk. unfold packed_frames at 1. simpl.
    destruct (decide (k = j)) as [->|Hne].
    + rewrite lookup_insert_eq. simpl. rewrite length_app. simpl.
      fold (packed_frames wj seq_counter j). rewrite (Hframes j Hj).
      rewrite decide_False, decide_True by lia. lia.
    + rewrite lookup_insert_ne.
      2: { intros Ename. apply Seq_filename_inj in Ename. congruence. }
      fold (packed_frames wj seq_counter k). rewrite (Hframes k Hk).
      destruct (decide (k < j)%nat), (decide (k < S j)%nat); lia.
  - exists w'. split; [exact E|]. split; [exact Hself|].
    intros k Hk. rewrite (Hframes k Hk), decide_True by exact Hk. lia.
Qed.

Lemma report_particle_numbers_Ok (w : World) :
  length (m_fields (self w)) = no_int_states ->
  exists w', report_particle_numbers w = Ok tt w' /\
             self w' = self w /\ disk w' = disk w.
Proof.
  intros Hlen.
  apply (mfor_inv (fun _ w' => self w' = self w /\ disk w' = disk w)).
  - split; reflexivity.
  - intros c wc Hc [Hself Hdisk].
    destruct (field_of_in_range "Get_Particle_Number" (Z.of_nat c) wc)
      as (Psi & _ & E); [lia|rewrite Hself; exact Hlen|].
    eexists. split.
    + unfold Get_Particle_Number.
      erewrite bind_Ok; [|erewrite bind_Ok by exact E; reflexivity].
      reflexivity.
    + split; [exact Hself|exact Hdisk].
Qed.




Lemma when_inv (J : World -> Prop) (b : bool) (m : M unit) (w : World) :
  J w ->
  (J w -> exists w', m w = Ok tt w' /\ J w') ->
  exists w', when b m w = Ok tt w' /\ J w'.
Proof.
  intros HJ Hm. destruct b; simpl; [apply Hm; exact HJ|].
  exists w. split; [reflexivity|exact HJ].
Qed.






End Packed_files.

Section Packed_stage.
Context {TT : CRT_Template} {DD : CRT_Derived}.


End Packed_stage.

Lemma Demo_Na (name : string) : Na_of (Demo.stage name 2) = Some 5%Z.
Proof. vm_compute. reflexivity. Qed.


(** * Further properties of the engine *)

(** ** Densities under the position-space operators *)

Section Densities.
Context {TT : CRT_Template}.

Lemma rotate_cmul (z : fftw_complex) (c s : R) : rotate z c s = cmul z (c, s).
Proof. unfold rotate, cmul. simpl. f_equal; lra. Qed.

Lemma rotate_norm2 (z : fftw_complex) (c s : R) :
  c * c + s * s = 1 -> norm2 (rotate z c s) = norm2 z.
Proof.
  intros H. unfold norm2, rotate. simpl.
  replace ((z.1 * c - z.2 * s) * (z.1 * c - z.2 * s)
           + (z.2 * c + z.1 * s) * (z.2 * c + z.1 * s))
    with ((z.1 * z.1 + z.2 * z.2) * (c * c + s * s)) by ring.
  rewrite H. ring.
Qed.

Lemma cos_sin_unit (x : R) : cos x * cos x + sin x * sin x = 1.
Proof. pose proof (sin2_cos2 x) as H. unfold Rsqr in H. lra. Qed.

Lemma rotate_zero (z : fftw_complex) : rotate z (cos 0) (sin 0) = z.
Proof.
  unfold rotate. rewrite cos_0, sin_0. destruct z as [re im]. simpl.
  f_equal; lra.
Qed.

(** Two loops with the same bound whose bodies agree below it agree. *)
Lemma for_ext {S : Type} (n : nat) (body body' : nat -> S -> S) (s : S) :
  (forall l s, (l < n)%nat -> body l s = body' l s) ->
  for_ n body s = for_ n body' s.
Proof.
  induction n as [|n IH]; intros H; [reflexivity|].
  rewrite !for_S, IH by (intros; apply H; lia). apply H. lia.
Qed.

Lemma Rsum_snoc (l : list R) (x : R) : Rsum (l ++ [x]) = Rsum l + x.
Proof.
  unfold Rsum. induction l as [|a l IH]; simpl; [lra|]. rewrite IH. lra.
Qed.

(** The loop of [Get_Particle_Number] over a field of [m_no_of_pts] values
    is the sum of their squared moduli. *)
Lemma density_loop (Psi : list fftw_complex) :
  for_ (length Psi)
    (fun l retval =>
       retval + ((Psi !!! l).1 * (Psi !!! l).1 + (Psi !!! l).2 * (Psi !!! l).2)) 0
  = Rsum (norm2 <$> Psi).
Proof.
  induction Psi as [|z Psi IH] using rev_ind; [reflexivity|].
  rewrite length_app, Nat.add_1_r, for_S, fmap_app.
  change (norm2 <$> [z]) with [norm2 z]. rewrite Rsum_snoc.
  rewrite list_lookup_total_middle by reflexivity.
  rewrite <- IH. unfold norm2. f_equal.
  apply for_ext. intros l s Hl.
  rewrite (lookup_total_app_l Psi [z] l Hl). reflexivity.
Qed.

Lemma Rsum_norm2_nonneg (Psi : list fftw_complex) : 0 <= Rsum (norm2 <$> Psi).
Proof.
  induction Psi as [|z Psi IH]; [simpl; lra|].
  change (0 <= norm2 z + Rsum (norm2 <$> Psi)).
  pose proof (Rle_0_sqr z.1) as H1. pose proof (Rle_0_sqr z.2) as H2.
  unfold Rsqr in H1, H2. unfold norm2 at 1. lra.
Qed.

Lemma field_of_lookup (func : string) (comp : Z) (w : World) (Psi : list fftw_complex) :
  (0 <= comp < Z.of_nat no_int_states)%Z ->
  m_fields (self w) !! Z.to_nat comp = Some Psi ->
  field_of func comp w = Ok Psi w.
Proof.
  intros Hcomp HPsi. unfold field_of.
  rewrite get_self_bind, bool_decide_false by lia. rewrite HPsi. reflexivity.
Qed.

(** X1: on a valid component whose field has [m_no_of_pts] values,
    [Get_Particle_Number] returns [m_ar] times the sum of the squared moduli
    of the field, which is not negative when [m_ar] is not, and leaves the
    world as it was. *)
Theorem Get_Particle_Number_value (w : World) (comp : Z) (Psi : list fftw_complex) :
  (0 <= comp < Z.of_nat no_int_states)%Z ->
  m_fields (self w) !! Z.to_nat comp = Some Psi ->
  length Psi = m_no_of_pts (self w) ->
  Get_Particle_Number comp w = Ok (m_ar (self w) * Rsum (norm2 <$> Psi)) w /\
  (0 <= m_ar (self w) -> 0 <= m_ar (self w) * Rsum (norm2 <$> Psi)).
Proof.
  intros Hcomp HPsi Hlen. split.
  - unfold Get_Particle_Number.
    erewrite bind_Ok by (apply field_of_lookup; eassumption).
    rewrite get_self_bind, <- Hlen, density_loop. reflexivity.
  - intros Har. apply Rmult_le_pos; [exact Har|apply Rsum_norm2_nonneg].
Qed.

End Densities.

Lemma Get_Particle_Number_value_witness :
  Get_Particle_Number 0 Demo.world
  = Ok (m_ar (self Demo.world) * Rsum (norm2 <$> [(1, 0); (0, 1)])) Demo.world.
Proof.
  apply (Get_Particle_Number_value Demo.world 0 [(1, 0); (0, 1)]).
  - simpl. lia.
  - reflexivity.
  - reflexivity.
Defined.

(** ** The nonlinear step and the density *)

Section Nonlinear_density.
Context {TT : CRT_Template}.

(** A loop that rewrites every entry by a map that keeps the squared
    modulus keeps the list of the squared moduli. *)
Lemma for_insert_norm2 (g : nat -> fftw_complex -> fftw_complex) (n : nat)
    (Psi : list fftw_complex) :
  (forall l z, norm2 (g l z) = norm2 z) ->
  norm2 <$> for_ n (fun l a => <[l := g l (a !!! l)]> a) Psi = norm2 <$> Psi.
Proof.
  intros Hg. apply list_eq. intros l.
  rewrite !list_lookup_fmap, for_insert_lookup.
  destruct (decide (l < n)%nat); [|reflexivity].
  destruct (Psi !! l) as [z|]; simpl; [|reflexivity].
  rewrite Hg. reflexivity.
Qed.

Lemma NL_loop_norm2 (st : CRT_Base) (i : nat) (Psi : list fftw_complex) :
  norm2 <$> for_ (m_no_of_pts st) (fun l Psi => NL_at st i l Psi) Psi
  = norm2 <$> Psi.
Proof.
  unfold NL_at.
  apply (for_insert_norm2
    (fun l z => rotate z (cos (potential_at st i l * - dt (m_header st)))
                         (sin (potential_at st i l * - dt (m_header st))))).
  intros l z. apply rotate_norm2, cos_sin_unit.
Qed.

Lemma NL_loop_length (st : CRT_Base) (i : nat) (Psi : list fftw_complex) :
  length (for_ (m_no_of_pts st) (fun l Psi => NL_at st i l Psi) Psi) = length Psi.
Proof. apply for_length. intros l a. apply length_insert. Qed.

Lemma Get_Particle_Number_sum (w : World) (comp : Z) (Psi : list fftw_complex) :
  (0 <= comp < Z.of_nat no_int_states)%Z ->
  m_fields (self w) !! Z.to_nat comp = Some Psi ->
  length Psi = m_no_of_pts (self w) ->
  Get_Particle_Number comp w = Ok (m_ar (self w) * Rsum (norm2 <$> Psi)) w.
Proof.
  intros Hcomp HPsi Hlen. unfold Get_Particle_Number.
  erewrite bind_Ok by (apply field_of_lookup; eassumption).
  rewrite get_self_bind, <- Hlen, density_loop. reflexivity.
Qed.

(** X2: [Do_NL_Step] keeps the particle number of every component: the
    value [Get_Particle_Number] returns after the step is the one it returns
    before. *)
Theorem Do_NL_Step_keeps_particle_number (w : World) (comp : Z)
    (Psi : list fftw_complex) :
  (0 <= comp < Z.of_nat no_int_states)%Z ->
  m_fields (self w) !! Z.to_nat comp = Some Psi ->
  length Psi = m_no_of_pts (self w) ->
  let w' := set_self (Do_NL_Step (self w)) w in
  exists n, Get_Particle_Number comp w = Ok n w /\
            Get_Particle_Number comp w' = Ok n w'.
Proof.
  intros Hcomp HPsi Hlen w'.
  exists (m_ar (self w) * Rsum (norm2 <$> Psi)).
  split; [apply Get_Particle_Number_sum; assumption|].
  assert (HPsi' : m_fields (self w') !! Z.to_nat comp
            = Some (for_ (m_no_of_pts (self w))
                      (fun l Psi => NL_at (self w) (Z.to_nat comp) l Psi) Psi)).
  { subst w'. cbn [self set_self].
    rewrite Do_NL_Step_lookup by lia. rewrite HPsi. reflexivity. }
  rewrite (Get_Particle_Number_sum w' comp _ Hcomp HPsi').
  - rewrite NL_loop_norm2. reflexivity.
  - rewrite NL_loop_length. exact Hlen.
Qed.

Lemma set_fields_same (st : CRT_Base) : set_fields (m_fields st) st = st.
Proof. destruct st; reflexivity. Qed.

(** X3: where the potential is zero, and in particular while it is not
    initialised, [Do_NL_Step] leaves the engine as it is: a [freeprop] stage
    then does what a [freeprop_lin] stage does. *)
Theorem Do_NL_Step_without_potential (st : CRT_Base) :
  length (m_fields st) = no_int_states ->
  (forall i l, (i < no_int_states)%nat -> (l < m_no_of_pts st)%nat ->
     potential_at st i l = 0) ->
  Do_NL_Step st = st /\
  (m_potenial_initialized st = false -> forall i l, potential_at st i l = 0).
Proof.
  intros Hlen Hzero. split.
  - rewrite <- (set_fields_same st) at 2.
    change (Do_NL_Step st) with (set_fields (m_fields (Do_NL_Step st)) st).
    f_equal. apply list_eq. intros i.
    destruct (decide (i < no_int_states)%nat) as [Hi|Hi].
    + rewrite Do_NL_Step_lookup by exact Hi.
      destruct (m_fields st !! i) as [Psi|]; [simpl|reflexivity].
      f_equal. apply list_eq. intros l. unfold NL_at.
      rewrite (for_insert_lookup
        (fun l z => rotate z (cos (potential_at st i l * - dt (m_header st)))
                             (sin (potential_at st i l * - dt (m_header st))))).
      destruct (decide (l < m_no_of_pts st)%nat) as [Hl|]; [|reflexivity].
      destruct (Psi !! l) as [z|]; [simpl|reflexivity].
      rewrite (Hzero i l Hi Hl), Rmult_0_l, rotate_zero. reflexivity.
    + pose proof (step_of_fields_length Do_NL_Step_Wrapper st) as Hl.
      change (step_of Do_NL_Step_Wrapper st) with (Do_NL_Step st) in Hl.
      rewrite !lookup_ge_None_2 by lia. reflexivity.
  - intros Hinit i l. unfold potential_at. rewrite Hinit. reflexivity.
Qed.

End Nonlinear_density.

Lemma Do_NL_Step_keeps_particle_number_witness :
  exists n,
    Get_Particle_Number 0 Demo.world_V = Ok n Demo.world_V /\
    Get_Particle_Number 0 (set_self (Do_NL_Step (self Demo.world_V)) Demo.world_V)
    = Ok n (set_self (Do_NL_Step (self Demo.world_V)) Demo.world_V).
Proof.
  apply (Do_NL_Step_keeps_particle_number Demo.world_V 0 [(1, 0); (0, 1)]).
  - simpl. lia.
  - reflexivity.
  - reflexivity.
Defined.

Lemma Do_NL_Step_without_potential_witness : Do_NL_Step Demo.engine = Demo.engine.
Proof.
  apply (Do_NL_Step_without_potential Demo.engine).
  - reflexivity.
  - intros i l _ _. reflexivity.
Defined.

(** ** The kinetic steps and their tables *)

Section Kinetic_tables.
Context {TT : CRT_Template}.

Lemma ft_all_lookup (d : Z) (fields : list (list fftw_complex)) (i : nat) :
  (i < no_int_states)%nat ->
  ft_all d fields !! i = ft d <$> fields !! i.
Proof.
  intros Hi. unfold ft_all.
  rewrite (for_insert_lookup (fun _ Psi => ft d Psi)), decide_True by exact Hi.
  reflexivity.
Qed.

Lemma apply_step_lookup (N : nat) (step : list fftw_complex)
    (fields : list (list fftw_complex)) (i : nat) :
  (i < no_int_states)%nat ->
  apply_step N step fields !! i = multiply_by N step <$> fields !! i.
Proof.
  intros Hi. unfold apply_step, multiply_by.
  rewrite (for_insert_lookup
    (fun _ Psi =>
       for_ N
         (fun l Psi => <[l := rotate (Psi !!! l) (step !!! l).1 (step !!! l).2]> Psi)
         Psi)),
    decide_True by exact Hi.
  reflexivity.
Qed.

(** What a kinetic step with the table [step] does to the field [i]. *)
Lemma kinetic_fields_lookup (N : nat) (step : list fftw_complex)
    (fields : list (list fftw_complex)) (i : nat) :
  (i < no_int_states)%nat ->
  ft_all 1 (apply_step N step (ft_all (-1) fields)) !! i
  = (fun Psi => ft 1 (multiply_by N step (ft (-1) Psi))) <$> fields !! i.
Proof.
  intros Hi.
  rewrite ft_all_lookup, apply_step_lookup, ft_all_lookup by exact Hi.
  destruct (fields !! i); reflexivity.
Qed.

Lemma multiply_by_lookup (N : nat) (step Psi : list fftw_complex) (l : nat) :
  multiply_by N step Psi !! l =
  if decide (l < N)%nat
  then (fun z => rotate z (step !!! l).1 (step !!! l).2) <$> Psi !! l
  else Psi !! l.
Proof.
  unfold multiply_by.
  apply (for_insert_lookup (fun l z => rotate z (step !!! l).1 (step !!! l).2)).
Qed.

(** On a field and a table of [N] entries the loop is the pointwise complex
    product. *)
Lemma multiply_by_zip (N : nat) (step Psi : list fftw_complex) :
  length Psi = N -> length step = N ->
  multiply_by N step Psi = zip_with cmul Psi step.
Proof.
  intros HPsi Hstep. apply list_eq. intros l.
  rewrite multiply_by_lookup, lookup_zip_with.
  destruct (decide (l < N)%nat) as [Hl|Hl].
  - destruct (lookup_lt_is_Some_2 Psi l) as [z Hz]; [lia|].
    destruct (lookup_lt_is_Some_2 step l) as [e He]; [lia|].
    rewrite Hz, (list_lookup_total_correct _ _ _ He), He. simpl.
    rewrite rotate_cmul. destruct e; reflexivity.
  - rewrite (lookup_ge_None_2 Psi) by lia. reflexivity.
Qed.

(** X4: a kinetic step sends every field to the inverse transform of the
    pointwise complex product of its forward transform with the operator
    table: the full-step table in [Do_FT_Step_full], the half-step table in
    [Do_FT_Step_half]. *)
Theorem kinetic_step_fields (st : CRT_Base) (i : nat) (Psi : list fftw_complex) :
  (i < no_int_states)%nat ->
  m_fields st !! i = Some Psi ->
  length (ft (-1) Psi) = m_no_of_pts st ->
  length (m_full_step st) = m_no_of_pts st ->
  length (m_half_step st) = m_no_of_pts st ->
  m_fields (Do_FT_Step_full st) !! i
    = Some (ft 1 (zip_with cmul (ft (-1) Psi) (m_full_step st))) /\
  m_fields (Do_FT_Step_half st) !! i
    = Some (ft 1 (zip_with cmul (ft (-1) Psi) (m_half_step st))).
Proof.
  intros Hi HPsi Hlen Hfull Hhalf.
  unfold Do_FT_Step_full, Do_FT_Step_half. cbn [m_fields set_header set_fields].
  rewrite !kinetic_fields_lookup by exact Hi. rewrite HPsi. simpl.
  rewrite !multiply_by_zip by assumption. split; reflexivity.
Qed.

Lemma Init_entries (st : CRT_Base) (l : nat) :
  (l < m_no_of_pts st)%nat ->
  length (m_half_step st) = m_no_of_pts st ->
  length (m_full_step st) = m_no_of_pts st ->
  exists phi,
    m_half_step (Init st) !! l = Some (cos (0.5 * phi), sin (0.5 * phi)) /\
    m_full_step (Init st) !! l = Some (cos phi, sin phi).
Proof.
  intros Hl Hhalf Hfull.
  destruct (Init_steps st) as [Efull Ehalf].
  exists (- dt (m_header st)
          * CPoint_dot (CPoint_scale (Get_k l) (m_alpha st)) (Get_k l)).
  split.
  - rewrite Ehalf, for_insert_const_lookup by lia. reflexivity.
  - rewrite Efull, for_insert_const_lookup by lia. reflexivity.
Qed.

(** X5: every entry that [Init] writes into the two operator tables has
    modulus one, and the entry of the full-step table is the square of the
    entry of the half-step table at the same point. *)
Theorem Init_tables_unit_and_square (st : CRT_Base) (l : nat) :
  (l < m_no_of_pts st)%nat ->
  length (m_half_step st) = m_no_of_pts st ->
  length (m_full_step st) = m_no_of_pts st ->
  exists half full,
    m_half_step (Init st) !! l = Some half /\
    m_full_step (Init st) !! l = Some full /\
    norm2 half = 1 /\ norm2 full = 1 /\ full = cmul half half.
Proof.
  intros Hl Hhalf Hfull.
  destruct (Init_entries st l Hl Hhalf Hfull) as (phi & Eh & Ef).
  eexists. eexists. split; [exact Eh|]. split; [exact Ef|].
  split; [apply cos_sin_unit|]. split; [apply cos_sin_unit|].
  unfold cmul. simpl.
  replace phi with (2 * (0.5 * phi)) at 1 2 by lra.
  rewrite cos_2a, sin_2a. f_equal; lra.
Qed.

Lemma rotate_rotate (z half : fftw_complex) :
  rotate (rotate z half.1 half.2) half.1 half.2
  = rotate z (cmul half half).1 (cmul half half).2.
Proof. unfold rotate, cmul. simpl. f_equal; ring. Qed.

Lemma multiply_by_twice (N : nat) (half full Psi : list fftw_complex) :
  (forall l, (l < N)%nat -> full !!! l = cmul (half !!! l) (half !!! l)) ->
  multiply_by N half (multiply_by N half Psi) = multiply_by N full Psi.
Proof.
  intros Hsq. apply list_eq. intros l. rewrite !multiply_by_lookup.
  destruct (decide (l < N)%nat) as [Hl|]; [|reflexivity].
  destruct (Psi !! l) as [z|]; [|reflexivity].
  rewrite (Hsq l Hl). cbn [fmap option_fmap option_map]. f_equal.
  apply rotate_rotate.
Qed.

(** X6: with the tables of [Init] and a transform whose forward direction
    undoes the inverse one, two half kinetic steps are one full kinetic step:
    the same fields and the same accumulated time. *)
Theorem two_half_steps_are_a_full_step (st0 : CRT_Base) :
  (forall Psi, ft (-1) (ft 1 Psi) = Psi) ->
  length (m_fields st0) = no_int_states ->
  length (m_half_step st0) = m_no_of_pts st0 ->
  length (m_full_step st0) = m_no_of_pts st0 ->
  Do_FT_Step_half (Do_FT_Step_half (Init st0)) = Do_FT_Step_full (Init st0).
Proof.
  intros Hft Hlen Hhalf Hfull.
  assert (Hsq : forall l, (l < m_no_of_pts st0)%nat ->
            m_full_step (Init st0) !!! l
            = cmul (m_half_step (Init st0) !!! l) (m_half_step (Init st0) !!! l)).
  { intros l Hl.
    destruct (Init_entries st0 l Hl Hhalf Hfull) as (phi & Eh & Ef).
    rewrite (list_lookup_total_correct _ _ _ Eh),
      (list_lookup_total_correct _ _ _ Ef).
    unfold cmul. simpl.
    replace phi with (2 * (0.5 * phi)) at 1 2 by lra.
    rewrite cos_2a, sin_2a. f_equal; lra. }
  set (st := Init st0) in *.
  assert (Hfields :
    m_fields (Do_FT_Step_half (Do_FT_Step_half st)) = m_fields (Do_FT_Step_full st)).
  { apply list_eq. intros i.
    destruct (decide (i < no_int_states)%nat) as [Hi|Hi].
    - unfold Do_FT_Step_half, Do_FT_Step_full.
      cbn [m_fields set_header set_fields m_no_of_pts m_half_step m_full_step].
      rewrite !kinetic_fields_lookup by exact Hi.
      destruct (m_fields st !! i) as [Psi|]; [simpl|reflexivity].
      rewrite Hft. f_equal. f_equal.
      apply multiply_by_twice. exact Hsq.
    - pose proof (step_of_fields_length Do_FT_Step_half_Wrapper st) as H1.
      pose proof (step_of_fields_length Do_FT_Step_half_Wrapper
                    (Do_FT_Step_half st)) as H2.
      pose proof (step_of_fields_length Do_FT_Step_full_Wrapper st) as H3.
      cbn [step_of] in H1, H2, H3.
      assert (H0 : length (m_fields st) = no_int_states) by exact Hlen.
      rewrite !lookup_ge_None_2 by lia. reflexivity. }
  revert Hfields. unfold Do_FT_Step_half, Do_FT_Step_full.
  cbn [m_fields set_header set_fields m_header t dt m_no_of_pts m_half_step
       m_full_step m_ar m_ar_k m_alpha m_potenial_initialized m_gs m_Potential
       m_map_stepfcts].
  intros ->. unfold set_header, set_fields. cbn. f_equal. f_equal. lra.
Qed.

End Kinetic_tables.

Lemma scaling_ft_round_trip_forward (Psi : list fftw_complex) :
  Demo.scaling_ft (-1) (Demo.scaling_ft 1 Psi) = Psi.
Proof.
  unfold Demo.scaling_ft. rewrite <- list_fmap_compose.
  induction Psi as [|[re im] Psi IH]; [reflexivity|].
  rewrite fmap_cons, IH. simpl. do 2 f_equal; lra.
Qed.

Lemma kinetic_step_fields_witness :
  m_fields (Do_FT_Step_full Demo.engine) !! 0%nat
  = Some (ft 1 (zip_with cmul (ft (-1) [(1, 0); (0, 1)]) (m_full_step Demo.engine))).
Proof.
  refine (proj1 (kinetic_step_fields Demo.engine 0 [(1, 0); (0, 1)] _ _ _ _ _)).
  - simpl. lia.
  - reflexivity.
  - reflexivity.
  - reflexivity.
  - reflexivity.
Defined.

Lemma Init_tables_unit_and_square_witness :
  exists half full,
    m_half_step (Init Demo.engine) !! 1%nat = Some half /\
    m_full_step (Init Demo.engine) !! 1%nat = Some full /\
    norm2 half = 1 /\ norm2 full = 1 /\ full = cmul half half.
Proof.
  apply (Init_tables_unit_and_square Demo.engine 1).
  - simpl. lia.
  - reflexivity.
  - reflexivity.
Defined.

Lemma two_half_steps_are_a_full_step_witness :
  Do_FT_Step_half (Do_FT_Step_half (Init Demo.engine))
  = Do_FT_Step_full (Init Demo.engine).
Proof.
  apply (two_half_steps_are_a_full_step Demo.engine).
  - exact scaling_ft_round_trip_forward.
  - reflexivity.
  - reflexivity.
  - reflexivity.
Defined.

(** ** The potential *)

Section Potential.
Context {TT : CRT_Template}.

Lemma resize_lookup_total (n : nat) (V : list R) (l : nat) :
  (l < n)%nat -> resize n V !!! l = V !!! l.
Proof.
  intros Hl. unfold resize. rewrite !list_lookup_total_alt.
  destruct (decide (l < length V)%nat) as [HV|HV].
  - rewrite lookup_app_l by (rewrite length_take; lia).
    rewrite lookup_take_lt by lia. reflexivity.
  - rewrite lookup_app_r by (rewrite length_take; lia).
    rewrite length_take, lookup_replicate_2 by lia.
    rewrite lookup_ge_None_2 by lia. reflexivity.
Qed.

Lemma resize_length (n : nat) (V : list R) : length (resize n V) = n.
Proof. unfold resize. rewrite length_app, length_take, length_replicate. lia. Qed.

Lemma resize_same (n : nat) (V : list R) : length V = n -> resize n V = V.
Proof.
  intros <-. unfold resize.
  rewrite firstn_all, Nat.sub_diag. apply app_nil_r.
Qed.

Lemma resize_lookup (n : nat) (V : list R) (l : nat) :
  (l < n)%nat -> resize n V !! l = Some (default 0 (V !! l)).
Proof.
  intros Hl. unfold resize.
  destruct (decide (l < length V)%nat) as [Hin|Hout].
  - rewrite lookup_app_l by (rewrite length_take; lia).
    rewrite lookup_take_lt by exact Hl.
    destruct (lookup_lt_is_Some_2 V l Hin) as [v ->]. reflexivity.
  - rewrite lookup_app_r by (rewrite length_take; lia).
    rewrite (lookup_ge_None_2 V l) by lia. simpl.
    apply lookup_replicate_2. rewrite length_take. lia.
Qed.

(** X7: [Init_Potential] sets the flag and gives every potential
    [m_no_of_pts] entries; it keeps the values a potential already has and
    fills the new entries with zero, so that calling it again changes
    nothing.  The number of potentials, the fields, the header, the two
    tables and every other member are as before. *)
Theorem Init_Potential_effect (st : CRT_Base) :
  m_potenial_initialized (Init_Potential st) = true /\
  (forall V, V ∈ m_Potential (Init_Potential st) -> length V = m_no_of_pts st) /\
  (forall i l, (l < m_no_of_pts st)%nat ->
     potential_at (Init_Potential st) i l = (m_Potential st !!! i) !!! l) /\
  Init_Potential (Init_Potential st) = Init_Potential st /\
  length (m_Potential (Init_Potential st)) = length (m_Potential st) /\
  (forall i V l, m_Potential st !! i = Some V -> (l < m_no_of_pts st)%nat ->
     m_Potential (Init_Potential st) !! i ≫= (.!! l) = Some (default 0 (V !! l))) /\
  m_fields (Init_Potential st) = m_fields st /\
  m_header (Init_Potential st) = m_header st /\
  m_full_step (Init_Potential st) = m_full_step st /\
  m_half_step (Init_Potential st) = m_half_step st /\
  m_no_of_pts (Init_Potential st) = m_no_of_pts st /\
  m_ar (Init_Potential st) = m_ar st /\
  m_ar_k (Init_Potential st) = m_ar_k st /\
  m_alpha (Init_Potential st) = m_alpha st /\
  m_gs (Init_Potential st) = m_gs st /\
  m_map_stepfcts (Init_Potential st) = m_map_stepfcts st.
Proof.
  split; [reflexivity|]. split; [|split; [|split; [|split; [|split]]]].
  - intros V HV. unfold Init_Potential in HV. simpl in HV.
    apply list_elem_of_fmap in HV as (V0 & -> & _). apply resize_length.
  - intros i l Hl. unfold potential_at, Init_Potential. simpl.
    rewrite (list_lookup_total_alt (resize _ <$> _)), list_lookup_fmap.
    rewrite (list_lookup_total_alt (m_Potential st)).
    destruct (m_Potential st !! i) as [V|]; simpl; [|reflexivity].
    apply resize_lookup_total. exact Hl.
  - unfold Init_Potential. simpl. unfold set_Potential. simpl. f_equal.
    rewrite <- list_fmap_compose. apply list_fmap_ext.
    intros i V _. simpl. apply resize_same, resize_length.
  - unfold Init_Potential. simpl. apply length_fmap.
  - intros i V l HV Hl. unfold Init_Potential. simpl.
    rewrite list_lookup_fmap, HV. simpl. apply resize_lookup. exact Hl.
  - repeat split.
Qed.

Lemma Setup_Potential_asserts (comp index : Z) (val : R) (w : World) :
  m_potenial_initialized (self w) = true ->
  Setup_Potential comp index val w =
    (assert (bool_decide (-1 < comp ∧ comp < Z.of_nat no_int_states)%Z);;
     assert (bool_decide (-1 < index ∧ comp < Z.of_nat (m_no_of_pts (self w)))%Z);;
     match m_Potential (self w) !! Z.to_nat comp with
     | None => undefined
     | Some V =>
         if bool_decide (Z.to_nat index < length V)%nat
         then modify_self
                (set_Potential (m_potenial_initialized (self w))
                   (<[Z.to_nat comp := <[Z.to_nat index := val]> V]>
                      (m_Potential (self w))))
         else undefined
     end) w.
Proof.
  intros Hinit. unfold Setup_Potential.
  rewrite get_self_bind, Hinit, ret_bind. reflexivity.
Qed.

Lemma assert_true_bind {B : Type} (b : bool) (k : M B) (w : World) :
  b = true -> (assert b;; k) w = k w.
Proof. intros ->. reflexivity. Qed.

Lemma assert_false_bind {B : Type} (b : bool) (k : M B) (w : World) :
  b = false -> (assert b;; k) w = Abort w.
Proof. intros ->. reflexivity. Qed.

(** X8: once the potential is initialised, [Setup_Potential] on a valid
    component and index (and a component index below [m_no_of_pts], which the
    second assertion tests) returns with the value written at that place;
    every other value of every potential, and the fields, are as before. *)
Theorem Setup_Potential_writes (w : World) (comp index : Z) (val : R) (V : list R) :
  m_potenial_initialized (self w) = true ->
  (0 <= comp < Z.of_nat no_int_states)%Z ->
  (comp < Z.of_nat (m_no_of_pts (self w)))%Z ->
  (0 <= index)%Z ->
  m_Potential (self w) !! Z.to_nat comp = Some V ->
  (Z.to_nat index < length V)%nat ->
  exists w',
    Setup_Potential comp index val w = Ok tt w' /\
    potential_at (self w') (Z.to_nat comp) (Z.to_nat index) = val /\
    (forall i l, (i, l) <> (Z.to_nat comp, Z.to_nat index) ->
       potential_at (self w') i l = potential_at (self w) i l) /\
    m_fields (self w') = m_fields (self w) /\
    m_header (self w') = m_header (self w) /\
    disk w' = disk w.
Proof.
  intros Hinit Hcomp HcompN Hindex HV Hlt.
  rewrite (Setup_Potential_asserts comp index val w Hinit).
  rewrite assert_true_bind by (apply bool_decide_eq_true; lia).
  rewrite assert_true_bind by (apply bool_decide_eq_true; lia).
  rewrite HV, bool_decide_true by exact Hlt.
  eexists. split; [reflexivity|].
  assert (Hc : (Z.to_nat comp < length (m_Potential (self w)))%nat).
  { apply lookup_lt_is_Some. eauto. }
  split; [|split; [|repeat split]].
  - unfold potential_at. simpl. rewrite Hinit.
    rewrite list_lookup_total_insert_eq by exact Hc.
    apply list_lookup_total_insert_eq. exact Hlt.
  - intros i l Hne. unfold potential_at. simpl. rewrite Hinit.
    destruct (decide (i = Z.to_nat comp)) as [->|Hi].
    + rewrite list_lookup_total_insert_eq by exact Hc.
      rewrite (list_lookup_total_correct _ _ _ HV).
      apply list_lookup_total_insert_ne. congruence.
    + rewrite list_lookup_total_insert_ne by congruence. reflexivity.
Qed.

(** X9: [Setup_Potential] with a component index outside
    [0, no_int_states) fails its first assertion: the process is aborted and
    the world is as before. *)
Theorem Setup_Potential_bad_comp (w : World) (comp index : Z) (val : R) :
  m_potenial_initialized (self w) = true ->
  (comp < 0 ∨ Z.of_nat no_int_states <= comp)%Z ->
  Setup_Potential comp index val w = Abort w.
Proof.
  intros Hinit Hcomp.
  rewrite (Setup_Potential_asserts comp index val w Hinit).
  apply assert_false_bind. apply bool_decide_eq_false. lia.
Qed.

(** X10: the second assertion of [Setup_Potential] bounds the index from
    below only (it compares [comp] with [m_no_of_pts]): a negative index
    aborts, and an index at or past the end of the potential passes both
    assertions and is written outside the vector. *)
Theorem Setup_Potential_index_unchecked (w : World) (comp index : Z) (val : R)
    (V : list R) :
  m_potenial_initialized (self w) = true ->
  (0 <= comp < Z.of_nat no_int_states)%Z ->
  (comp < Z.of_nat (m_no_of_pts (self w)))%Z ->
  m_Potential (self w) !! Z.to_nat comp = Some V ->
  ((index < 0)%Z -> Setup_Potential comp index val w = Abort w) /\
  ((Z.of_nat (length V) <= index)%Z ->
     Setup_Potential comp index val w = Undefined).
Proof.
  intros Hinit Hcomp HcompN HV.
  rewrite (Setup_Potential_asserts comp index val w Hinit).
  rewrite assert_true_bind by (apply bool_decide_eq_true; lia).
  split; intros Hindex.
  - apply assert_false_bind. apply bool_decide_eq_false. lia.
  - rewrite assert_true_bind by (apply bool_decide_eq_true; lia).
    rewrite HV, bool_decide_false by lia. reflexivity.
Qed.

End Potential.

Lemma Setup_Potential_writes_witness :
  exists w',
    Setup_Potential 1 1 3 Demo.world_V = Ok tt w' /\
    potential_at (self w') 1 1 = 3.
Proof.
  destruct (Setup_Potential_writes Demo.world_V 1 1 3 [0; 0])
    as (w' & E & Hval & _); try reflexivity; try (simpl; lia).
  exists w'. split; [exact E|exact Hval].
Defined.

Lemma Setup_Potential_bad_comp_witness :
  Setup_Potential 2 0 1 Demo.world_V = Abort Demo.world_V.
Proof.
  apply (Setup_Potential_bad_comp Demo.world_V 2 0 1).
  - reflexivity.
  - simpl. lia.
Defined.

Lemma Setup_Potential_index_unchecked_witness :
  Setup_Potential 0 2 1 Demo.world_V = Undefined.
Proof.
  refine (proj2 (Setup_Potential_index_unchecked Demo.world_V 0 2 1 [PI; 0] _ _ _ _) _).
  - reflexivity.
  - simpl. lia.
  - simpl. lia.
  - reflexivity.
  - simpl. lia.
Defined.

(** ** The momentum kick *)

Section Momentum_kick.
Context {TT : CRT_Template}.

Lemma kick_lookup (px : CPoint) (N : nat) (Psi : list fftw_complex) (l : nat) :
  kick px N Psi !! l =
  if decide (l < N)%nat
  then (fun z => cmul z (cos (CPoint_dot px (Get_x l)), sin (CPoint_dot px (Get_x l))))
         <$> Psi !! l
  else Psi !! l.
Proof.
  unfold kick.
  rewrite (for_insert_lookup
    (fun l z =>
       (z.1 * cos (CPoint_dot px (Get_x l)) - z.2 * sin (CPoint_dot px (Get_x l)),
        z.1 * sin (CPoint_dot px (Get_x l)) + z.2 * cos (CPoint_dot px (Get_x l))))).
  reflexivity.
Qed.

Lemma cmul_unit_norm2 (z e : fftw_complex) : norm2 e = 1 -> norm2 (cmul z e) = norm2 z.
Proof.
  unfold norm2, cmul. simpl. intros H.
  replace ((z.1 * e.1 - z.2 * e.2) * (z.1 * e.1 - z.2 * e.2)
           + (z.1 * e.2 + z.2 * e.1) * (z.1 * e.2 + z.2 * e.1))
    with ((z.1 * z.1 + z.2 * z.2) * (e.1 * e.1 + e.2 * e.2)) by ring.
  rewrite H. ring.
Qed.

Lemma kick_norm2 (px : CPoint) (N : nat) (Psi : list fftw_complex) :
  norm2 <$> kick px N Psi = norm2 <$> Psi.
Proof.
  apply list_eq. intros l. rewrite !list_lookup_fmap, kick_lookup.
  destruct (decide (l < N)%nat); [|reflexivity].
  destruct (Psi !! l) as [z|]; simpl; [|reflexivity].
  rewrite cmul_unit_norm2; [reflexivity|]. apply cos_sin_unit.
Qed.

Lemma kick_length (px : CPoint) (N : nat) (Psi : list fftw_complex) :
  length (kick px N Psi) = length Psi.
Proof. apply for_length. intros l a. apply length_insert. Qed.

Lemma Setup_Momentum_Ok (w : World) (px : CPoint) (comp : Z) (Psi : list fftw_complex) :
  (0 <= comp < Z.of_nat no_int_states)%Z ->
  m_fields (self w) !! Z.to_nat comp = Some Psi ->
  Setup_Momentum px comp w =
    Ok tt (set_self
             (set_fields
                (<[Z.to_nat comp := kick px (m_no_of_pts (self w)) Psi]>
                   (m_fields (self w)))
                (self w)) w).
Proof.
  intros Hcomp HPsi. unfold Setup_Momentum.
  erewrite bind_Ok by (apply field_of_lookup; eassumption).
  rewrite get_self_bind. reflexivity.
Qed.

(** X11: [Setup_Momentum] on a valid component multiplies the value of that
    component at every point [l] by (cos(p.x), sin(p.x)), [x] the position of
    [l]; the other components, the header, the potentials and the files are
    as before. *)
Theorem Setup_Momentum_effect (w : World) (px : CPoint) (comp : Z)
    (Psi : list fftw_complex) :
  (0 <= comp < Z.of_nat no_int_states)%Z ->
  m_fields (self w) !! Z.to_nat comp = Some Psi ->
  exists w',
    Setup_Momentum px comp w = Ok tt w' /\
    (forall l z, (l < m_no_of_pts (self w))%nat -> Psi !! l = Some z ->
       point (m_fields (self w')) (Z.to_nat comp) l
       = Some (cmul z (cos (CPoint_dot px (Get_x l)), sin (CPoint_dot px (Get_x l))))) /\
    (forall i, i <> Z.to_nat comp ->
       m_fields (self w') !! i = m_fields (self w) !! i) /\
    same_but_fields_and_time (self w) (self w') /\
    m_header (self w') = m_header (self w) /\
    disk w' = disk w.
Proof.
  intros Hcomp HPsi.
  rewrite (Setup_Momentum_Ok w px comp Psi Hcomp HPsi).
  eexists. split; [reflexivity|].
  assert (Hc : (Z.to_nat comp < length (m_fields (self w)))%nat).
  { apply lookup_lt_is_Some. eauto. }
  split; [|split; [|split; [|split]]].
  - intros l z Hl Hz. unfold point. cbn [self set_self m_fields set_fields].
    rewrite list_lookup_insert_eq by exact Hc. simpl.
    rewrite kick_lookup, decide_True by exact Hl. rewrite Hz. reflexivity.
  - intros i Hi. cbn [self set_self m_fields set_fields].
    apply list_lookup_insert_ne. congruence.
  - unfold same_but_fields_and_time. simpl. repeat split.
  - reflexivity.
  - reflexivity.
Qed.

(** X12: [Setup_Momentum] keeps the particle number of every component. *)
Theorem Setup_Momentum_keeps_particle_number (w : World) (px : CPoint)
    (comp c : Z) (Psi Phi : list fftw_complex) :
  (0 <= comp < Z.of_nat no_int_states)%Z ->
  m_fields (self w) !! Z.to_nat comp = Some Psi ->
  (0 <= c < Z.of_nat no_int_states)%Z ->
  m_fields (self w) !! Z.to_nat c = Some Phi ->
  length Phi = m_no_of_pts (self w) ->
  exists w' n,
    Setup_Momentum px comp w = Ok tt w' /\
    Get_Particle_Number c w = Ok n w /\
    Get_Particle_Number c w' = Ok n w'.
Proof.
  intros Hcomp HPsi Hc HPhi Hlen.
  rewrite (Setup_Momentum_Ok w px comp Psi Hcomp HPsi).
  eexists. exists (m_ar (self w) * Rsum (norm2 <$> Phi)).
  split; [reflexivity|].
  split; [apply Get_Particle_Number_sum; assumption|].
  assert (Hlt : (Z.to_nat comp < length (m_fields (self w)))%nat).
  { apply lookup_lt_is_Some. eauto. }
  destruct (decide (Z.to_nat c = Z.to_nat comp)) as [E|N].
  - rewrite E, HPsi in HPhi. injection HPhi as <-.
    erewrite (Get_Particle_Number_sum _ c (kick px (m_no_of_pts (self w)) Psi) Hc).
    + rewrite kick_norm2. reflexivity.
    + cbn [self set_self m_fields set_fields]. rewrite E.
      apply list_lookup_insert_eq. exact Hlt.
    + rewrite kick_length. exact Hlen.
  - erewrite (Get_Particle_Number_sum _ c Phi Hc).
    + reflexivity.
    + cbn [self set_self m_fields set_fields].
      rewrite list_lookup_insert_ne by congruence. exact HPhi.
    + exact Hlen.
Qed.

End Momentum_kick.

Lemma Setup_Momentum_effect_witness :
  exists w',
    Setup_Momentum [1] 0 Demo.world = Ok tt w' /\
    m_fields (self w') !! 1%nat = m_fields (self Demo.world) !! 1%nat.
Proof.
  destruct (Setup_Momentum_effect Demo.world [1] 0 [(1, 0); (0, 1)])
    as (w' & E & _ & Hother & _).
  - simpl. lia.
  - reflexivity.
  - exists w'. split; [exact E|]. apply Hother. simpl. lia.
Defined.

Lemma Setup_Momentum_keeps_particle_number_witness :
  exists w' n,
    Setup_Momentum [1] 0 Demo.world = Ok tt w' /\
    Get_Particle_Number 0 Demo.world = Ok n Demo.world /\
    Get_Particle_Number 0 w' = Ok n w'.
Proof.
  apply (Setup_Momentum_keeps_particle_number Demo.world [1] 0 0
           [(1, 0); (0, 1)] [(1, 0); (0, 1)]);
    try reflexivity; simpl; lia.
Defined.

(** ** The expectation values *)

Section Expectation_values.
Context {TT : CRT_Template}.

Lemma for_Rsum (f : nat -> R) (n : nat) :
  for_ n (fun l v => v + f l) 0 = Rsum (f <$> seq 0 n).
Proof.
  induction n as [|n IH]; [reflexivity|].
  rewrite for_S, IH, seq_S, fmap_app. simpl.
  change (f <$> [n]) with [f n]. rewrite Rsum_snoc. reflexivity.
Qed.

(** The two loops of the reductions leave in [res[i]] the sum over the
    points of [coord(l)[i] * |Psi[l]|^2]. *)
Lemma expval_sum_lookup (N : nat) (coord : nat -> CPoint) (Psi : list fftw_complex)
    (i : nat) :
  (i < dim)%nat ->
  expval_sum N coord Psi !! i
  = Some (0 + Rsum ((fun l => (coord l !!! i) * norm2 (Psi !!! l)) <$> seq 0 N)).
Proof.
  intros Hi. unfold expval_sum.
  rewrite (for_insert_lookup (fun i v => v + _ !!! i)), decide_True by exact Hi.
  rewrite lookup_replicate_2 by exact Hi. simpl. do 2 f_equal.
  apply list_lookup_total_correct.
  rewrite (for_lookup_fmap _
    (fun l i v => v + (coord l !!! i) * norm2 (Psi !!! l)) dim); [| |exact Hi].
  - rewrite lookup_replicate_2 by exact Hi. simpl. rewrite for_Rsum. reflexivity.
  - intros l tmp j Hj.
    rewrite (for_insert_lookup
      (fun j v => v + (coord l !!! j)
                      * ((Psi !!! l).1 * (Psi !!! l).1 + (Psi !!! l).2 * (Psi !!! l).2))).
    rewrite decide_True by exact Hj. reflexivity.
Qed.

Lemma scaled_lookup (scale : R) (res : list R) (i : nat) :
  (i < dim)%nat -> scaled scale res !! i = Some (scale * (res !!! i)).
Proof.
  intros Hi. unfold scaled.
  apply (for_insert_const_lookup (fun i => scale * (res !!! i))).
  - exact Hi.
  - rewrite length_replicate. exact Hi.
Qed.

Lemma scaled_length (scale : R) (res : list R) : length (scaled scale res) = dim.
Proof.
  unfold scaled. rewrite for_length; [apply length_replicate|].
  intros l a. apply length_insert.
Qed.

(** X13: [Expval_Position] on a valid component returns a point with [dim]
    coordinates, the coordinate [i] being [m_ar] times the sum over the grid
    points of [x(l)[i] * |Psi[l]|^2], and leaves the world as it was. *)
Theorem Expval_Position_value (w : World) (comp : Z) (Psi : list fftw_complex) :
  (0 <= comp < Z.of_nat no_int_states)%Z ->
  m_fields (self w) !! Z.to_nat comp = Some Psi ->
  exists retval,
    Expval_Position comp w = Ok retval w /\
    length retval = dim /\
    forall i, (i < dim)%nat ->
      retval !! i
      = Some (m_ar (self w)
              * Rsum ((fun l => (Get_x l !!! i) * norm2 (Psi !!! l))
                        <$> seq 0 (m_no_of_pts (self w)))).
Proof.
  intros Hcomp HPsi. eexists. split; [|split].
  - unfold Expval_Position.
    erewrite bind_Ok by (apply field_of_lookup; eassumption).
    rewrite get_self_bind. reflexivity.
  - apply scaled_length.
  - intros i Hi. rewrite scaled_lookup by exact Hi.
    rewrite (list_lookup_total_correct _ _ _ (expval_sum_lookup _ _ _ i Hi)).
    f_equal. lra.
Qed.

End Expectation_values.

Lemma Expval_Position_value_witness :
  exists retval,
    Expval_Position 0 Demo.world = Ok retval Demo.world /\ length retval = 1%nat.
Proof.
  destruct (Expval_Position_value Demo.world 0 [(1, 0); (0, 1)])
    as (retval & E & Hlen & _).
  - simpl. lia.
  - reflexivity.
  - exists retval. split; [exact E|exact Hlen].
Defined.

(** ** Snapshot files *)

Section Snapshots.
Context {TT : CRT_Template} {PH : ParameterHandler}.

Lemma Save_Phi_frame (w : World) (filename : string) (comp : Z)
    (Psi : list fftw_complex) :
  (0 <= comp < Z.of_nat no_int_states)%Z ->
  m_fields (self w) !! Z.to_nat comp = Some Psi ->
  Save_Phi filename comp w =
    if can_write filename
    then Ok tt (set_disk
                  (<[filename := [mk_frame (m_header (self w)) Psi]]> (disk w)) w)
    else Ok tt w.
Proof.
  intros Hcomp HPsi. unfold Save_Phi.
  erewrite bind_Ok by (apply field_of_lookup; eassumption).
  rewrite get_self_bind. destruct (can_write filename); reflexivity.
Qed.

(** X14: [Save_Phi] on a valid component returns, whether or not the file
    can be opened.  When it can, the file holds exactly one record
    afterwards, the header and the field as they are at the call, whatever it
    held before; when it cannot, nothing is written and nothing reports it:
    the world is as before.  In both cases the other files, the engine and
    the two streams are as before. *)
Theorem Save_Phi_overwrites (w : World) (filename : string) (comp : Z)
    (Psi : list fftw_complex) :
  (0 <= comp < Z.of_nat no_int_states)%Z ->
  m_fields (self w) !! Z.to_nat comp = Some Psi ->
  exists w',
    Save_Phi filename comp w = Ok tt w' /\
    (can_write filename = true ->
       disk w' !! filename = Some [mk_frame (m_header (self w)) Psi]) /\
    (can_write filename = false -> w' = w) /\
    (forall other, other <> filename -> disk w' !! other = disk w !! other) /\
    self w' = self w /\ cout w' = cout w /\ cerr w' = cerr w.
Proof.
  intros Hcomp HPsi. rewrite (Save_Phi_frame w filename comp Psi Hcomp HPsi).
  destruct (can_write filename); eexists; (split; [reflexivity|]).
  - split; [intros _; simpl; apply lookup_insert_eq|].
    split; [discriminate|].
    split; [|split; [|split]]; try reflexivity.
    intros other Hne. simpl. apply lookup_insert_ne. congruence.
  - split; [discriminate|].
    split; [reflexivity|].
    split; [|split; [|split]]; reflexivity.
Qed.

Lemma Append_Phi_frame (w : World) (filename : string) (comp : Z)
    (Psi : list fftw_complex) :
  (0 <= comp < Z.of_nat no_int_states)%Z ->
  m_fields (self w) !! Z.to_nat comp = Some Psi ->
  Append_Phi filename comp w =
    if can_append filename
    then Ok tt (set_disk
                  (<[filename := default [] (disk w !! filename)
                                 ++ [mk_frame (m_header (self w)) Psi]]> (disk w)) w)
    else Exit (print (Line_open_failed filename) w).
Proof.
  intros Hcomp HPsi. unfold Append_Phi.
  erewrite bind_Ok by (apply field_of_lookup; eassumption).
  rewrite get_self_bind. destruct (can_append filename); reflexivity.
Qed.

(** X15: [Append_Phi] on a valid component and a file that opens adds one
    record, the header and the field as they are at the call, after the
    records the file holds, which it keeps in their order; a file that does
    not exist is created with that record. *)
Theorem Append_Phi_appends (w : World) (filename : string) (comp : Z)
    (Psi : list fftw_complex) :
  (0 <= comp < Z.of_nat no_int_states)%Z ->
  m_fields (self w) !! Z.to_nat comp = Some Psi ->
  can_append filename = true ->
  exists w',
    Append_Phi filename comp w = Ok tt w' /\
    disk w' !! filename
      = Some (default [] (disk w !! filename) ++ [mk_frame (m_header (self w)) Psi]) /\
    (forall other, other <> filename -> disk w' !! other = disk w !! other) /\
    self w' = self w.
Proof.
  intros Hcomp HPsi Hcan.
  rewrite (Append_Phi_frame w filename comp Psi Hcomp HPsi), Hcan.
  eexists. split; [reflexivity|]. split; [|split].
  - simpl. apply lookup_insert_eq.
  - intros other Hne. simpl. apply lookup_insert_ne. congruence.
  - reflexivity.
Qed.

(** X16: [Append_Phi] on a file that cannot be opened writes a line to
    [std::cout] and exits; no file and nothing of the engine has changed. *)
Theorem Append_Phi_cannot_open (w : World) (filename : string) (comp : Z)
    (Psi : list fftw_complex) :
  (0 <= comp < Z.of_nat no_int_states)%Z ->
  m_fields (self w) !! Z.to_nat comp = Some Psi ->
  can_append filename = false ->
  Append_Phi filename comp w = Exit (print (Line_open_failed filename) w) /\
  disk (print (Line_open_failed filename) w) = disk w /\
  self (print (Line_open_failed filename) w) = self w.
Proof.
  intros Hcomp HPsi Hcan.
  rewrite (Append_Phi_frame w filename comp Psi Hcomp HPsi), Hcan.
  repeat split.
Qed.

Lemma read_payload_full (N : nat) (fr : frame) (buf : list fftw_complex) :
  length (frame_payload fr) = N -> length buf = N ->
  read_payload N [fr] buf = Some (frame_payload fr).
Proof.
  intros Hp Hb. unfold read_payload.
  rewrite !decide_True by lia.
  rewrite <- Hp at 1. rewrite firstn_all, drop_ge by lia.
  rewrite app_nil_r. reflexivity.
Qed.

Lemma load_file_Ok (w : World) (filename : string) (i : nat) (fr : frame)
    (buf : list fftw_complex) :
  disk w !! filename = Some [fr] ->
  m_fields (self w) !! i = Some buf ->
  length (frame_payload fr) = m_no_of_pts (self w) ->
  length buf = m_no_of_pts (self w) ->
  load_file filename i w =
    Ok tt (set_self
             (set_fields (<[i := frame_payload fr]> (m_fields (self w))) (self w)) w).
Proof.
  intros Hfile Hbuf Hp Hb. unfold load_file.
  rewrite Hfile, Hbuf, (read_payload_full _ _ _ Hp Hb). reflexivity.
Qed.

(** X17: a field written with [Save_Phi] to a file that can be opened, and
    read back as [LoadFiles] reads a file, is the field that was written:
    saving the component [comp] and loading the file into the component [i]
    makes the field [i] equal to the field [comp], and changes no other
    field. *)
Theorem Save_Phi_load_round_trip (w : World) (filename : string) (comp : Z)
    (i : nat) (Psi buf : list fftw_complex) :
  can_write filename = true ->
  (0 <= comp < Z.of_nat no_int_states)%Z ->
  m_fields (self w) !! Z.to_nat comp = Some Psi ->
  length Psi = m_no_of_pts (self w) ->
  m_fields (self w) !! i = Some buf ->
  length buf = m_no_of_pts (self w) ->
  exists w',
    (Save_Phi filename comp;; load_file filename i) w = Ok tt w' /\
    m_fields (self w') = <[i := Psi]> (m_fields (self w)).
Proof.
  intros Hopen Hcomp HPsi HlenPsi Hbuf Hlenbuf.
  set (w1 := set_disk (<[filename := [mk_frame (m_header (self w)) Psi]]> (disk w)) w).
  assert (E1 : Save_Phi filename comp w = Ok tt w1).
  { rewrite (Save_Phi_frame w filename comp Psi Hcomp HPsi), Hopen. reflexivity. }
  assert (E2 : load_file filename i w1 =
            Ok tt (set_self (set_fields (<[i := Psi]> (m_fields (self w1))) (self w1)) w1)).
  { apply (load_file_Ok w1 filename i (mk_frame (m_header (self w)) Psi) buf).
    - simpl. apply lookup_insert_eq.
    - exact Hbuf.
    - exact HlenPsi.
    - exact Hlenbuf. }
  eexists. split.
  - erewrite bind_Ok by exact E1. exact E2.
  - reflexivity.
Qed.

(** X18: when the file named under [FILENAME] cannot be opened, [LoadFiles]
    throws the string "Could not open file <name>" followed by a line feed,
    and nothing has changed. *)
Theorem LoadFiles_missing_file (w : World) :
  disk w !! Get_simulation "FILENAME" = None ->
  LoadFiles w =
    Throw ("Could not open file " +:+ Get_simulation "FILENAME" +:+ LF) w.
Proof.
  intros Hnone. unfold LoadFiles, mbind, M_bind, bind, load_file.
  rewrite Hnone. reflexivity.
Qed.

(** X19: when every file named in the parameters holds one record of
    [m_no_of_pts] values, [LoadFiles] returns with the field of every
    internal state equal to the payload of its file, and the files as they
    were. *)
Theorem LoadFiles_loads (w : World) (P : nat -> frame) :
  (0 < no_int_states)%nat ->
  length (m_fields (self w)) = no_int_states ->
  (forall buf, buf ∈ m_fields (self w) -> length buf = m_no_of_pts (self w)) ->
  (forall i, (i < no_int_states)%nat ->
     disk w !! Get_simulation (FILENAME_key i) = Some [P i] /\
     length (frame_payload (P i)) = m_no_of_pts (self w)) ->
  exists w',
    LoadFiles w = Ok tt w' /\
    disk w' = disk w /\
    forall i, (i < no_int_states)%nat ->
      m_fields (self w') !! i = Some (frame_payload (P i)).
Proof.
  intros Hpos Hlen Hbufs Hfiles.
  set (Inv := fun (j : nat) (w' : World) =>
    disk w' = disk w /\
    m_no_of_pts (self w') = m_no_of_pts (self w) /\
    length (m_fields (self w')) = no_int_states /\
    (forall i, (i < j)%nat -> m_fields (self w') !! i = Some (frame_payload (P i))) /\
    (forall i, (j <= i)%nat -> m_fields (self w') !! i = m_fields (self w) !! i)).
  assert (Hstep : forall j wj, (j < no_int_states)%nat -> Inv j wj ->
            exists w', load_file (Get_simulation (FILENAME_key j)) j wj = Ok tt w'
                       /\ Inv (S j) w').
  { intros j wj Hj (Hd & HN & Hl & Hdone & Hrest).
    destruct (Hfiles j Hj) as [Hfile Hpay].
    destruct (lookup_lt_is_Some_2 (m_fields (self w)) j) as [buf Hbuf]; [lia|].
    assert (Hbuflen : length buf = m_no_of_pts (self w)).
    { apply Hbufs. apply list_elem_of_lookup. eauto. }
    eexists. split.
    - apply (load_file_Ok wj _ j (P j) buf).
      + rewrite Hd. exact Hfile.
      + rewrite Hrest by lia. exact Hbuf.
      + rewrite HN. exact Hpay.
      + rewrite HN. exact Hbuflen.
    - split; [exact Hd|]. split; [exact HN|]. cbn [self set_self m_fields set_fields].
      split; [rewrite length_insert; exact Hl|]. split.
      + intros i Hi. destruct (decide (i = j)) as [->|Hne].
        * apply list_lookup_insert_eq. lia.
        * rewrite list_lookup_insert_ne by congruence. apply Hdone. lia.
      + intros i Hi. rewrite list_lookup_insert_ne by lia. apply Hrest. lia. }
  destruct (Hstep 0%nat w Hpos) as (w1 & E1 & H1).
  { repeat split; try reflexivity; [exact Hlen|]. intros i Hi. lia. }
  destruct (mfor_list_inv Inv
              (fun i => load_file
                 (Get_simulation ("FILENAME_" +:+ pretty (Z.of_nat i + 1)%Z)) i)
              (no_int_states - 1) 1 w1 H1) as (w' & E' & Hd & _ & _ & Hdone & _).
  { intros i wi Hi HI.
    destruct i as [|i]; [lia|]. apply (Hstep (S i) wi); [lia|exact HI]. }
  exists w'. split; [|split; [exact Hd|]].
  - unfold LoadFiles. erewrite bind_Ok by exact E1. exact E'.
  - intros i Hi. apply Hdone. lia.
Qed.

End Snapshots.

Lemma Save_Phi_overwrites_witness :
  exists w',
    Save_Phi "Seq_1_1.bin" 0 Demo.world = Ok tt w' /\
    disk w' !! "Seq_1_1.bin"
    = Some [mk_frame (m_header (self Demo.world)) [(1, 0); (0, 1)]].
Proof.
  destruct (Save_Phi_overwrites Demo.world "Seq_1_1.bin" 0 [(1, 0); (0, 1)])
    as (w' & E & Hfile & _).
  - simpl. lia.
  - reflexivity.
  - exists w'. split; [exact E|apply Hfile; reflexivity].
Defined.

Lemma Append_Phi_appends_witness :
  exists w',
    Append_Phi "FILENAME" 0 Demo_files.world = Ok tt w' /\
    disk w' !! "FILENAME"
    = Some ([Demo_files.psi_1]
            ++ [mk_frame (m_header (self Demo_files.world)) [(1, 0); (0, 1)]]).
Proof.
  destruct (Append_Phi_appends Demo_files.world "FILENAME" 0 [(1, 0); (0, 1)])
    as (w' & E & Hfile & _).
  - simpl. lia.
  - reflexivity.
  - reflexivity.
  - exists w'. split; [exact E|exact Hfile].
Defined.

Lemma Append_Phi_cannot_open_witness :
  @Append_Phi Demo_stages.template_read_only "Seq_1_1.bin" 0 Demo.world
  = Exit (print (Line_open_failed "Seq_1_1.bin") Demo.world).
Proof.
  refine (proj1 (@Append_Phi_cannot_open Demo_stages.template_read_only Demo.world
                   "Seq_1_1.bin" 0 [(1, 0); (0, 1)] _ _ _)).
  - simpl. lia.
  - reflexivity.
  - reflexivity.
Defined.

Lemma Save_Phi_load_round_trip_witness :
  exists w',
    (Save_Phi "snapshot.bin" 0;; load_file "snapshot.bin" 1) Demo.world = Ok tt w' /\
    m_fields (self w') = [[(1, 0); (0, 1)]; [(1, 0); (0, 1)]].
Proof.
  apply (Save_Phi_load_round_trip Demo.world "snapshot.bin" 0 1
           [(1, 0); (0, 1)] [(0, 0); (1, 1)]);
    try reflexivity. simpl. lia.
Defined.

Lemma LoadFiles_missing_file_witness :
  LoadFiles Demo.world = Throw ("Could not open file " +:+ "FILENAME" +:+ LF) Demo.world.
Proof. exact (LoadFiles_missing_file Demo.world eq_refl). Defined.

Lemma LoadFiles_loads_witness :
  exists w',
    LoadFiles Demo_files.world = Ok tt w' /\
    disk w' = disk Demo_files.world /\
    forall i, (i < 2)%nat ->
      m_fields (self w') !! i = Some (frame_payload (Demo_files.file_of i)).
Proof.
  refine (LoadFiles_loads Demo_files.world Demo_files.file_of _ _ _ _).
  - simpl. lia.
  - reflexivity.
  - intros buf Hbuf. simpl in Hbuf.
    apply elem_of_cons in Hbuf as [->|Hbuf]; [reflexivity|].
    apply elem_of_cons in Hbuf as [->|Hbuf]; [reflexivity|].
    apply elem_of_nil in Hbuf. contradiction.
  - intros i Hi. simpl in Hi.
    destruct i as [|[|i]]; [split; reflexivity|split; reflexivity|lia].
Defined.

(** ** The stages of the scheduler *)

Section Stages.
Context {TT : CRT_Template} {DD : CRT_Derived}.

(** X20: [run_sequence] on an empty list of sequences, with the two kinetic
    step functions registered, writes the line "Found 0 sequences" and
    returns; the engine and the files are untouched. *)
Theorem run_sequence_empty (w : World) (half_step_fct full_step_fct : StepFunction) :
  length (m_fields (self w)) = no_int_states ->
  m_map_stepfcts (self w) !! "half_step" = Some half_step_fct ->
  m_map_stepfcts (self w) !! "full_step" = Some full_step_fct ->
  run_sequence [] w = Ok tt (print (FYI_found 0) w).
Proof.
  intros Hlen Hhalf Hfull. unfold run_sequence.
  rewrite get_self_bind, bool_decide_true by exact Hlen.
  rewrite ret_bind, modify_bind, Hhalf, Hfull. reflexivity.
Qed.

(** X21: when [half_step] or [full_step] is not registered in
    [m_map_stepfcts], [run_sequence] writes its error to [std::cerr] and exits
    before any sequence is looked at. *)
Theorem run_sequence_missing_step_function (w : World) (m_sequence : list sequence_item) :
  length (m_fields (self w)) = no_int_states ->
  m_map_stepfcts (self w) !! "half_step" = None ∨
  m_map_stepfcts (self w) !! "full_step" = None ->
  run_sequence m_sequence w =
    Exit (eprint Err_fct_ptr (print (FYI_found (length m_sequence)) w)).
Proof.
  intros Hlen Hmissing. unfold run_sequence.
  rewrite get_self_bind, bool_decide_true by exact Hlen.
  rewrite ret_bind, modify_bind.
  destruct Hmissing as [H|H]; rewrite H.
  - reflexivity.
  - destruct (m_map_stepfcts (self w) !! "half_step"); reflexivity.
Qed.

(** X22: a sequence that [run_custom_sequence] takes is left to it: nothing
    else is done for it and [seq_counter] keeps its value. *)
Theorem custom_sequence_is_skipped (half_step_fct full_step_fct : StepFunction)
    (seq : sequence_item) (seq_counter : Z) (w w1 : World) :
  run_custom_sequence seq w = Ok true w1 ->
  run_sequence_item half_step_fct full_step_fct seq seq_counter w
  = Ok seq_counter w1.
Proof.
  intros Hcustom. unfold run_sequence_item.
  erewrite bind_Ok by exact Hcustom. reflexivity.
Qed.

Lemma run_sequence_item_set_momentum (half_step_fct full_step_fct : StepFunction)
    (seq : sequence_item) (seq_counter : Z) (w w1 : World) :
  run_custom_sequence seq w = Ok false w1 ->
  seq_name seq = "set_momentum" ->
  run_sequence_item half_step_fct full_step_fct seq seq_counter w
  = (run_set_momentum seq;; mret seq_counter) w1.
Proof.
  intros Hcustom Hname. unfold run_sequence_item.
  erewrite bind_Ok by exact Hcustom.
  rewrite bool_decide_true by exact Hname. reflexivity.
Qed.

Lemma read_momentum_app (l1 l2 : list nat) (vec : list string) (P : CPoint) :
  read_momentum (l1 ++ l2) vec P =
    match read_momentum l1 vec P with
    | inl P' => read_momentum l2 vec P'
    | inr e => inr e
    end.
Proof.
  revert P. induction l1 as [|i l1 IH]; intros P; simpl; [reflexivity|].
  destruct (stod (vec !!! i)); [apply IH|reflexivity].
Qed.

(** The loop over the first [n] strings, when [stod] takes each of them. *)
Lemma read_momentum_Ok (vec : list string) (P : CPoint) (n : nat) :
  length P = dim ->
  (n <= dim)%nat ->
  (forall i, (i < n)%nat -> stod (vec !!! i) = inl (P !!! i)) ->
  read_momentum (seq 0 n) vec (replicate dim 0)
  = inl (take n P ++ replicate (dim - n) 0).
Proof.
  intros HP. induction n as [|n IH]; intros Hn Hstod.
  - simpl. rewrite Nat.sub_0_r. reflexivity.
  - rewrite seq_S, read_momentum_app, IH by (lia || (intros; apply Hstod; lia)).
    simpl. rewrite Hstod by lia. f_equal.
    destruct (lookup_lt_is_Some_2 P n) as [x Hx]; [lia|].
    rewrite (list_lookup_total_correct _ _ _ Hx), (take_S_r _ _ _ Hx).
    replace (dim - n)%nat with (S (dim - S n)) by lia.
    rewrite <- app_assoc. simpl.
    assert (Hl : length (take n P) = n) by (rewrite length_take; lia).
    rewrite insert_app_r_alt by lia. rewrite Hl, Nat.sub_diag. reflexivity.
Qed.

Lemma momentum_of_Ok (vec : list string) (P : CPoint) :
  length P = dim ->
  (forall i, (i < dim)%nat -> stod (vec !!! i) = inl (P !!! i)) ->
  momentum_of vec = inl P.
Proof.
  intros HP Hstod. unfold momentum_of.
  rewrite (read_momentum_Ok vec P dim HP (le_n _) Hstod).
  rewrite Nat.sub_diag, firstn_all2 by lia. simpl. rewrite app_nil_r. reflexivity.
Qed.

(** The loop ends at the first string that [stod] does not take. *)
Lemma momentum_of_throws (vec : list string) (k : nat) (e : std_exception) :
  (k < dim)%nat ->
  (forall i, (i < k)%nat -> exists x, stod (vec !!! i) = inl x) ->
  stod (vec !!! k) = inr e ->
  momentum_of vec = inr e.
Proof.
  intros Hk Hbefore Hthrows. unfold momentum_of.
  replace dim with (k + S (dim - S k))%nat at 1 by lia.
  rewrite seq_app, read_momentum_app.
  assert (H : forall n P0, (n <= k)%nat ->
            exists P', read_momentum (seq 0 n) vec P0 = inl P').
  { induction n as [|n IH]; intros P0 Hn; [exists P0; reflexivity|].
    rewrite seq_S, read_momentum_app.
    destruct (IH P0) as [P' ->]; [lia|].
    destruct (Hbefore n) as [x Hx]; [lia|].
    simpl. rewrite Hx. eexists. reflexivity. }
  destruct (H k (replicate dim 0) (le_n _)) as [P' ->].
  simpl. rewrite Hthrows. reflexivity.
Qed.

(** X23: a [set_momentum] stage whose content has more than [dim] strings,
    the first [dim] of which [stod] reads as the coordinates of [P], and
    whose component is at most [dim] and valid, kicks that component with
    [P], writes its two lines, and leaves [seq_counter], the accumulated time
    and the files as they are. *)
Theorem set_momentum_stage (half_step_fct full_step_fct : StepFunction)
    (seq : sequence_item) (seq_counter : Z) (w w1 : World)
    (Psi : list fftw_complex) (P : CPoint) :
  run_custom_sequence seq w = Ok false w1 ->
  seq_name seq = "set_momentum" ->
  (dim < length (strtk_parse (seq_content seq)))%nat ->
  length P = dim ->
  (forall i, (i < dim)%nat ->
     stod (strtk_parse (seq_content seq) !!! i) = inl (P !!! i)) ->
  (seq_comp seq <= Z.of_nat dim)%Z ->
  (0 <= seq_comp seq < Z.of_nat no_int_states)%Z ->
  m_fields (self w1) !! Z.to_nat (seq_comp seq) = Some Psi ->
  exists w',
    run_sequence_item half_step_fct full_step_fct seq seq_counter w
      = Ok seq_counter w' /\
    m_fields (self w')
      = <[Z.to_nat (seq_comp seq) := kick P (m_no_of_pts (self w1)) Psi]>
          (m_fields (self w1)) /\
    m_header (self w') = m_header (self w1) /\
    cout w' = cout w1 ++ [FYI_started (seq_name seq); FYI_momentum_set (seq_comp seq)] /\
    disk w' = disk w1.
Proof.
  intros Hcustom Hname Hvec HP Hstod Hdim Hcomp HPsi.
  rewrite (run_sequence_item_set_momentum _ _ _ _ _ _ Hcustom Hname).
  unfold run_set_momentum.
  rewrite (momentum_of_Ok _ P HP Hstod).
  eexists. split.
  - erewrite bind_Ok; [reflexivity|].
    rewrite assert_true_bind by (apply bool_decide_eq_true; exact Hvec).
    rewrite assert_true_bind by (apply bool_decide_eq_true; exact Hdim).
    erewrite bind_Ok by (apply (Setup_Momentum_Ok w1 _ _ Psi Hcomp HPsi)).
    rewrite modify_bind. reflexivity.
  - simpl. rewrite <- app_assoc. repeat split.
Qed.

(** X30: a [set_momentum] stage that passes its two assertions and has,
    among the first [dim] strings of its content, one that [stod] does not
    take, ends with the exception of the first such string: [run_sequence]
    has no handler, and nothing has been changed or written. *)
Theorem set_momentum_stage_throws (half_step_fct full_step_fct : StepFunction)
    (seq : sequence_item) (seq_counter : Z) (w w1 : World)
    (k : nat) (e : std_exception) :
  run_custom_sequence seq w = Ok false w1 ->
  seq_name seq = "set_momentum" ->
  (dim < length (strtk_parse (seq_content seq)))%nat ->
  (seq_comp seq <= Z.of_nat dim)%Z ->
  (k < dim)%nat ->
  (forall i, (i < k)%nat ->
     exists x, stod (strtk_parse (seq_content seq) !!! i) = inl x) ->
  stod (strtk_parse (seq_content seq) !!! k) = inr e ->
  run_sequence_item half_step_fct full_step_fct seq seq_counter w = Throw_std e w1.
Proof.
  intros Hcustom Hname Hvec Hdim Hk Hbefore Hthrows.
  rewrite (run_sequence_item_set_momentum _ _ _ _ _ _ Hcustom Hname).
  unfold run_set_momentum.
  rewrite (momentum_of_throws _ k e Hk Hbefore Hthrows).
  unfold mbind at 1, M_bind at 1, bind at 1.
  rewrite assert_true_bind by (apply bool_decide_eq_true; exact Hvec).
  rewrite assert_true_bind by (apply bool_decide_eq_true; exact Hdim).
  reflexivity.
Qed.

(** X24: a [set_momentum] stage whose content has [dim] numbers or fewer
    fails the assertion [vec.size() > dim], and one whose component is above
    [dim] fails the assertion [seq.comp <= dim]: the process is aborted before
    any field is touched. *)
Theorem set_momentum_stage_asserts (half_step_fct full_step_fct : StepFunction)
    (seq : sequence_item) (seq_counter : Z) (w w1 : World) :
  run_custom_sequence seq w = Ok false w1 ->
  seq_name seq = "set_momentum" ->
  (length (strtk_parse (seq_content seq)) <= dim)%nat ∨
  (Z.of_nat dim < seq_comp seq)%Z ->
  run_sequence_item half_step_fct full_step_fct seq seq_counter w = Abort w1.
Proof.
  intros Hcustom Hname Hbad.
  rewrite (run_sequence_item_set_momentum _ _ _ _ _ _ Hcustom Hname).
  unfold run_set_momentum.
  destruct (decide (dim < length (strtk_parse (seq_content seq)))%nat) as [Hvec|Hvec].
  - destruct Hbad as [Hbad|Hbad]; [lia|].
    unfold mbind at 1, M_bind at 1, bind at 1.
    rewrite assert_true_bind by (apply bool_decide_eq_true; exact Hvec).
    rewrite assert_false_bind by (apply bool_decide_eq_false; lia).
    reflexivity.
  - unfold mbind at 1, M_bind at 1, bind at 1.
    rewrite assert_false_bind by (apply bool_decide_eq_false; exact Hvec).
    reflexivity.
Qed.

(** X25: a stage whose name is not registered in [m_map_stepfcts] writes
    its error to [std::cerr] and exits after its banner: no file has been
    deleted or written, and the time step of the engine is already that of
    the stage. *)
Theorem unknown_stage_name_exits (half_step_fct full_step_fct : StepFunction)
    (seq : sequence_item) (seq_counter Na : Z) (w w1 : World) :
  run_custom_sequence seq w = Ok false w1 ->
  seq_name seq <> "set_momentum" ->
  Na_of seq = Some Na ->
  m_map_stepfcts (self w1) !! seq_name seq = None ->
  exists w',
    run_sequence_item half_step_fct full_step_fct seq seq_counter w = Exit w' /\
    disk w' = disk w1 /\
    cerr w' = cerr w1 ++ [Err_sequence_name (seq_name seq)] /\
    m_fields (self w') = m_fields (self w1) /\
    dt (m_header (self w')) = double_value (seq_dt seq).
Proof.
  intros Hcustom Hname HNa Hnone.
  rewrite (run_sequence_item_stage _ _ _ _ _ _ _ Hcustom Hname HNa), Hnone.
  eexists. split; [reflexivity|]. repeat split.
Qed.

End Stages.

(** ** The engine along a stage *)

Section Engine_along_a_stage.
Context {TT : CRT_Template} {DD : CRT_Derived}.

Lemma outer_iteration_fields_length h f s Nk (st : CRT_Base) :
  length (m_fields (outer_iteration h f s Nk st)) = length (m_fields st).
Proof. apply steps_fields_length. Qed.

Lemma iter_fields_length h f s Nk (n : nat) (st : CRT_Base) :
  length (m_fields (Nat.iter n (outer_iteration h f s Nk) st)) = length (m_fields st).
Proof.
  induction n as [|n IH]; [reflexivity|].
  simpl. rewrite outer_iteration_fields_length. exact IH.
Qed.

Lemma Save_all_Ok (w : World) :
  length (m_fields (self w)) = no_int_states ->
  exists w', Save_all w = Ok tt w' /\ self w' = self w.
Proof.
  intros Hlen.
  apply (mfor_inv (fun _ w' => self w' = self w)); [reflexivity|].
  intros k wk Hk Hself.
  destruct (field_of_in_range "Save_Phi" (Z.of_nat k) wk) as (Psi & _ & E);
    [lia|rewrite Hself; exact Hlen|].
  rewrite get_self_bind. unfold Save_Phi.
  erewrite bind_Ok by exact E. rewrite get_self_bind.
  destruct (can_write _); eexists; (split; [reflexivity|exact Hself]).
Qed.

Lemma call_custom_fct_none (seq : sequence_item) (w : World) :
  m_custom_fct = None -> call_custom_fct seq w = Ok tt w.
Proof. intros H. unfold call_custom_fct. rewrite H. reflexivity. Qed.

(** Without a hook, what follows the operators of an outer iteration, and
    what follows the loop, leave the engine as it is. *)
Lemma cadences_keep_engine (seq : sequence_item) (seq_counter : Z) (w : World) :
  m_custom_fct = None ->
  length (m_fields (self w)) = no_int_states ->
  (forall k, (k < no_int_states)%nat -> can_append (Seq_filename seq_counter k) = true) ->
  (exists w', after_step seq seq_counter w = Ok tt w' /\ self w' = self w) /\
  (exists w', after_loop seq w = Ok tt w' /\ self w' = self w).
Proof.
  intros Hnone Hlen Hcan.
  set (J := fun w' : World => self w' = self w).
  assert (Hsave : forall b w0, J w0 -> exists w', when b Save_all w0 = Ok tt w' /\ J w').
  { intros b w0 H0. apply when_inv; [exact H0|]. intros _.
    destruct (Save_all_Ok w0) as (w' & E & Hs); [rewrite H0; exact Hlen|].
    exists w'. split; [exact E|]. unfold J. congruence. }
  assert (Hpn : forall b w0, J w0 ->
            exists w', when b report_particle_numbers w0 = Ok tt w' /\ J w').
  { intros b w0 H0. apply when_inv; [exact H0|]. intros _.
    destruct (report_particle_numbers_Ok w0) as (w' & E & Hs & _);
      [rewrite H0; exact Hlen|].
    exists w'. split; [exact E|]. unfold J. congruence. }
  assert (Hhook : forall b w0, J w0 ->
            exists w', when b (call_custom_fct seq) w0 = Ok tt w' /\ J w').
  { intros b w0 H0. apply when_inv; [exact H0|]. intros _.
    exists w0. split; [apply call_custom_fct_none; exact Hnone|exact H0]. }
  assert (Happ : forall b w0, J w0 ->
            exists w', when b (mfor no_int_states
                         (fun k => Append_Phi (Seq_filename seq_counter k) (Z.of_nat k)))
                         w0 = Ok tt w' /\ J w').
  { intros b w0 H0. apply when_inv; [exact H0|]. intros _.
    destruct (append_all seq_counter w0) as (w' & E & Hs & _);
      [rewrite H0; exact Hlen|exact Hcan|].
    exists w'. split; [exact E|]. unfold J. congruence. }
  split.
  - unfold after_step. rewrite get_self_bind, modify_bind.
    destruct (Hsave (bool_decide (seq_output_freq seq = freq.each))
                (print (Line_t (t (m_header (self w)))) w)) as (w1 & E1 & H1);
      [reflexivity|].
    destruct (Happ (bool_decide (seq_output_freq seq = freq.packed)) w1 H1)
      as (w2 & E2 & H2).
    destruct (Hpn (bool_decide (seq_compute_pn_freq seq = freq.each)) w2 H2)
      as (w3 & E3 & H3).
    destruct (Hhook (bool_decide (seq_custom_freq seq = freq.each)) w3 H3)
      as (w4 & E4 & H4).
    exists w4. split; [|exact H4].
    erewrite bind_Ok by exact E1. erewrite bind_Ok by exact E2.
    erewrite bind_Ok by exact E3. exact E4.
  - unfold after_loop.
    destruct (Hsave (bool_decide (seq_output_freq seq = freq.last)) w) as (w1 & E1 & H1);
      [reflexivity|].
    destruct (Hpn (bool_decide (seq_compute_pn_freq seq = freq.last)) w1 H1)
      as (w2 & E2 & H2).
    destruct (Hhook (bool_decide (seq_custom_freq seq = freq.last)) w2 H2)
      as (w3 & E3 & H3).
    exists w3. split; [|exact H3].
    erewrite bind_Ok by exact E1. erewrite bind_Ok by exact E2. exact E3.
Qed.

Lemma run_stage_engine (half_step_fct full_step_fct step_fct : StepFunction)
    (seq : sequence_item) (Na seq_counter : Z) (w : World) :
  m_custom_fct = None ->
  length (m_fields (self w)) = no_int_states ->
  (forall k, (k < no_int_states)%nat -> can_append (Seq_filename seq_counter k) = true) ->
  exists w',
    run_stage half_step_fct full_step_fct step_fct seq Na (seq_Nk seq) seq_counter w
      = Ok (seq_counter + 1)%Z w' /\
    self w' = Nat.iter (Z.to_nat Na)
                (outer_iteration half_step_fct full_step_fct step_fct (seq_Nk seq))
                (self w).
Proof.
  intros Hnone Hlen Hcan. unfold run_stage, propagate.
  set (F := outer_iteration half_step_fct full_step_fct step_fct (seq_Nk seq)).
  destruct (mrepeat_inv (fun i w' => self w' = Nat.iter i F (self w))
              (splitting_step half_step_fct full_step_fct step_fct seq (seq_Nk seq);;
               after_step seq seq_counter) (Z.to_nat Na) w) as (w1 & E1 & H1).
  - reflexivity.
  - intros i wi Hi.
    erewrite bind_Ok by apply splitting_step_Ok.
    destruct (cadences_keep_engine seq seq_counter
                (set_self (foldl (fun st g => step_of g st) (self wi)
                   (splitting_schedule half_step_fct full_step_fct step_fct
                      (seq_Nk seq))) wi) Hnone) as [(w' & E & Hs) _].
    + cbn [self set_self]. rewrite steps_fields_length, Hi.
      unfold F. rewrite iter_fields_length. exact Hlen.
    + exact Hcan.
    + exists w'. split; [exact E|]. rewrite Hs. cbn [self set_self].
      rewrite Hi. reflexivity.
  - destruct (cadences_keep_engine seq seq_counter w1 Hnone) as [_ (w2 & E2 & H2)].
    + rewrite H1. unfold F. rewrite iter_fields_length. exact Hlen.
    + exact Hcan.
    + exists w2. split; [|congruence].
      erewrite bind_Ok by exact E1. erewrite bind_Ok by exact E2. reflexivity.
Qed.

(** X26: without a hook, and with packed files that open, the engine a
    stage leaves is the engine it found after [Na] times the operators of one
    outer iteration, whatever the three cadences of the stage: snapshots and
    reports do not touch the engine; and [seq_counter] is one more. *)
Theorem outputs_do_not_change_the_engine
    (half_step_fct full_step_fct step_fct : StepFunction)
    (seq : sequence_item) (Na seq_counter : Z) (w : World) :
  m_custom_fct = None ->
  length (m_fields (self w)) = no_int_states ->
  (forall k, (k < no_int_states)%nat -> can_append (Seq_filename seq_counter k) = true) ->
  exists w',
    run_stage half_step_fct full_step_fct step_fct seq Na (seq_Nk seq) seq_counter w
      = Ok (seq_counter + 1)%Z w' /\
    self w' = Nat.iter (Z.to_nat Na)
                (outer_iteration half_step_fct full_step_fct step_fct (seq_Nk seq))
                (self w).
Proof. apply run_stage_engine. Qed.




End Engine_along_a_stage.

(** ** The invariant of the arrays *)

Section Invariant.
Context {TT : CRT_Template}.

Lemma multiply_by_length (N : nat) (step Psi : list fftw_complex) :
  length (multiply_by N step Psi) = length Psi.
Proof. apply for_length. intros l a. apply length_insert. Qed.

Lemma Init_steps_length (st : CRT_Base) :
  length (m_full_step (Init st)) = length (m_full_step st) /\
  length (m_half_step (Init st)) = length (m_half_step st).
Proof.
  destruct (Init_steps st) as [Efull Ehalf]. rewrite Efull, Ehalf.
  split; apply for_length; intros l a; apply length_insert.
Qed.

(** X28: with a transform that keeps the length of a field, every step
    function keeps the invariant of the arrays: the number of fields, the
    length of every field, of the tables and of the potentials. *)
Theorem step_functions_keep_well_formed (f : StepFunction) (st : CRT_Base) :
  (forall d Psi, length (ft d Psi) = length Psi) ->
  well_formed st -> well_formed (step_of f st).
Proof.
  intros Hft [Hfields Hpoints Hfull Hhalf HPot Hpots].
  assert (Hkin : forall step,
    Forall (fun Psi => length Psi = m_no_of_pts st)
      (ft_all 1 (apply_step (m_no_of_pts st) step (ft_all (-1) (m_fields st))))).
  { intros step. apply Forall_lookup. intros i Psi' Hi.
    assert (Hlt : (i < no_int_states)%nat).
    { apply lookup_lt_Some in Hi.
      rewrite ft_all_length, apply_step_length, ft_all_length in Hi. lia. }
    rewrite kinetic_fields_lookup in Hi by exact Hlt.
    destruct (m_fields st !! i) as [Psi|] eqn:EPsi; [|discriminate].
    injection Hi as <-.
    rewrite Hft, multiply_by_length, Hft.
    exact (proj1 (Forall_lookup _ _) Hpoints i Psi EPsi). }
  destruct f.
  - constructor; simpl; try assumption.
    + rewrite ft_all_length, apply_step_length, ft_all_length. exact Hfields.
    + apply Hkin.
  - constructor; simpl; try assumption.
    + rewrite ft_all_length, apply_step_length, ft_all_length. exact Hfields.
    + apply Hkin.
  - pose proof (step_of_fields_length Do_NL_Step_Wrapper st) as Hl.
    cbn [step_of] in *.
    constructor; [| |exact Hfull|exact Hhalf|exact HPot|exact Hpots].
    + rewrite Hl. exact Hfields.
    + change (m_no_of_pts (Do_NL_Step st)) with (m_no_of_pts st).
      apply Forall_lookup. intros i Psi' Hi.
      assert (Hlt : (i < no_int_states)%nat).
      { apply lookup_lt_Some in Hi. lia. }
      rewrite Do_NL_Step_lookup in Hi by exact Hlt.
      destruct (m_fields st !! i) as [Psi|] eqn:EPsi; [|discriminate].
      injection Hi as <-. rewrite NL_loop_length.
      exact (proj1 (Forall_lookup _ _) Hpoints i Psi EPsi).
  - constructor; assumption.
Qed.

(** X29: [Init] keeps the invariant of the arrays, and [Init_Potential]
    establishes it together with the flag, whether or not the potentials had
    their entries before. *)
Theorem Init_and_Init_Potential_well_formed (st : CRT_Base) :
  length (m_fields st) = no_int_states ->
  Forall (fun Psi => length Psi = m_no_of_pts st) (m_fields st) ->
  length (m_full_step st) = m_no_of_pts st ->
  length (m_half_step st) = m_no_of_pts st ->
  length (m_Potential st) = no_int_states ->
  (well_formed st -> well_formed (Init st)) /\
  well_formed (Init_Potential st) /\
  m_potenial_initialized (Init_Potential st) = true.
Proof.
  intros Hfields Hpoints Hfull Hhalf HPot. split; [|split; [|reflexivity]].
  - intros [_ _ _ _ _ Hpots].
    destruct (Init_steps_length st) as [Lfull Lhalf].
    constructor; try assumption.
    + rewrite Lfull. exact Hfull.
    + rewrite Lhalf. exact Hhalf.
  - constructor; simpl; try assumption.
    + rewrite length_fmap. exact HPot.
    + intros _. apply Forall_fmap, Forall_true. intros V. apply resize_length.
Qed.

End Invariant.

Lemma scaling_ft_length (d : Z) (Psi : list fftw_complex) :
  length (Demo.scaling_ft d Psi) = length Psi.
Proof. unfold Demo.scaling_ft. apply length_fmap. Qed.

Lemma Demo_engine_well_formed : well_formed Demo.engine.
Proof.
  constructor; try reflexivity.
  - repeat constructor.
  - intros H. discriminate H.
Qed.

Lemma step_functions_keep_well_formed_witness :
  well_formed (Do_FT_Step_full Demo.engine).
Proof.
  apply (step_functions_keep_well_formed Do_FT_Step_full_Wrapper Demo.engine).
  - exact scaling_ft_length.
  - exact Demo_engine_well_formed.
Defined.

Lemma Init_and_Init_Potential_well_formed_witness :
  well_formed (Init_Potential Demo.engine) /\
  m_potenial_initialized (Init_Potential Demo.engine) = true.
Proof.
  refine (proj2 (Init_and_Init_Potential_well_formed Demo.engine _ _ _ _ _));
    try reflexivity.
  repeat constructor.
Defined.

Lemma run_sequence_empty_witness :
  run_sequence [] Demo.world = Ok tt (print (FYI_found 0) Demo.world).
Proof.
  apply (run_sequence_empty Demo.world Do_FT_Step_half_Wrapper
           Do_FT_Step_full_Wrapper); reflexivity.
Defined.

Lemma run_sequence_missing_step_function_witness :
  run_sequence [Demo.stage "freeprop" 2] Demo_stages.world_unregistered
  = Exit (eprint Err_fct_ptr (print (FYI_found 1) Demo_stages.world_unregistered)).
Proof.
  apply (run_sequence_missing_step_function Demo_stages.world_unregistered
           [Demo.stage "freeprop" 2]).
  - reflexivity.
  - left. reflexivity.
Defined.

Lemma custom_sequence_is_skipped_witness :
  @run_sequence_item Demo.template Demo_stages.derived_custom
    Do_FT_Step_half_Wrapper Do_FT_Step_full_Wrapper (Demo.stage "my_stage" 2) 1
    Demo.world
  = Ok 1%Z Demo.world.
Proof.
  apply (@custom_sequence_is_skipped Demo.template Demo_stages.derived_custom).
  reflexivity.
Defined.

Lemma set_momentum_stage_witness :
  exists w',
    @run_sequence_item Demo_stages.template_parsing Demo.derived
      Do_FT_Step_half_Wrapper Do_FT_Step_full_Wrapper Demo_stages.kick_stage 1
      Demo.world = Ok 1%Z w' /\
    m_header (self w') = m_header (self Demo.world) /\
    disk w' = disk Demo.world.
Proof.
  destruct (@set_momentum_stage Demo_stages.template_parsing Demo.derived
              Do_FT_Step_half_Wrapper Do_FT_Step_full_Wrapper
              Demo_stages.kick_stage 1 Demo.world Demo.world [(1, 0); (0, 1)] [1])
    as (w' & E & _ & Hh & _ & Hd).
  - reflexivity.
  - reflexivity.
  - simpl. lia.
  - reflexivity.
  - intros i Hi. destruct i as [|i]; [reflexivity|simpl in Hi; lia].
  - simpl. lia.
  - simpl. lia.
  - reflexivity.
  - exists w'. split; [exact E|]. split; [exact Hh|exact Hd].
Defined.

Lemma set_momentum_stage_throws_witness :
  @run_sequence_item Demo_stages.template_not_a_number Demo.derived
    Do_FT_Step_half_Wrapper Do_FT_Step_full_Wrapper Demo_stages.bad_kick_stage 1
    Demo.world = Throw_std invalid_argument Demo.world.
Proof.
  apply (@set_momentum_stage_throws Demo_stages.template_not_a_number Demo.derived
           Do_FT_Step_half_Wrapper Do_FT_Step_full_Wrapper
           Demo_stages.bad_kick_stage 1 Demo.world Demo.world 0 invalid_argument).
  - reflexivity.
  - reflexivity.
  - simpl. lia.
  - simpl. lia.
  - simpl. lia.
  - intros i Hi. lia.
  - reflexivity.
Defined.

Lemma set_momentum_stage_asserts_witness :
  run_sequence_item Do_FT_Step_half_Wrapper Do_FT_Step_full_Wrapper
    Demo_stages.kick_stage 1 Demo.world
  = Abort Demo.world.
Proof.
  apply (set_momentum_stage_asserts Do_FT_Step_half_Wrapper
           Do_FT_Step_full_Wrapper Demo_stages.kick_stage 1 Demo.world Demo.world).
  - reflexivity.
  - reflexivity.
  - left. simpl. lia.
Defined.

Lemma unknown_stage_name_exits_witness :
  exists w',
    run_sequence_item Do_FT_Step_half_Wrapper Do_FT_Step_full_Wrapper
      (Demo.stage "no_such_step" 2) 1 Demo.world = Exit w' /\
    disk w' = disk Demo.world /\
    cerr w' = cerr Demo.world ++ [Err_sequence_name "no_such_step"].
Proof.
  destruct (unknown_stage_name_exits Do_FT_Step_half_Wrapper
              Do_FT_Step_full_Wrapper (Demo.stage "no_such_step" 2) 1 5
              Demo.world Demo.world) as (w' & E & Hd & Hc & _).
  - reflexivity.
  - discriminate.
  - apply Demo_Na.
  - reflexivity.
  - exists w'. split; [exact E|]. split; [exact Hd|exact Hc].
Defined.

Lemma outputs_do_not_change_the_engine_witness :
  exists w',
    run_stage Do_FT_Step_half_Wrapper Do_FT_Step_full_Wrapper Do_NL_Step_Wrapper
      (Demo.stage "freeprop" 2) 5 2 1 Demo.world = Ok 2%Z w' /\
    self w' = Nat.iter 5
                (outer_iteration Do_FT_Step_half_Wrapper Do_FT_Step_full_Wrapper
                   Do_NL_Step_Wrapper 2)
                (self Demo.world).
Proof.
  refine (outputs_do_not_change_the_engine Do_FT_Step_half_Wrapper
            Do_FT_Step_full_Wrapper Do_NL_Step_Wrapper (Demo.stage "freeprop" 2)
            5 1 Demo.world _ _ _).
  - reflexivity.
  - reflexivity.
  - intros k Hk. reflexivity.
Defined.

